(** * Project index: build and safe-update pipeline

    A shallow embedding of [scripts/project_index.py]: the dependency
    resolver, the call-graph builder, the size governor, the change
    analyzer, backup rotation and logging, and the atomic save.

    Python dictionaries that the script iterates over (files, functions,
    classes, methods) are association lists in insertion order; the two
    dictionaries that are only looked up ([call_graph], [called_by_graph])
    are finite maps.  The file system, standard output and the injected
    faults are threaded through a small state-and-exception monad. *)

From Stdlib Require Import ZArith QArith Qabs Ascii String Uint63 PrimFloat.
From Stdlib Require Import Sorting.Sorted Permutation.
From stdpp Require Import gmap strings list.

Local Open Scope string_scope.
Local Open Scope Z_scope.

(** ** Python dictionaries in insertion order *)

Module Dict.

Definition t (V : Type) : Type := list (string * V).

Fixpoint get {V} (k : string) (d : t V) : option V :=
  match d with
  | [] => None
  | (k', v) :: d' => if String.eqb k k' then Some v else get k d'
  end.

Definition mem {V} (k : string) (d : t V) : bool :=
  match get k d with Some _ => true | None => false end.

(** [d[k] = v]: an existing key keeps its position, a new key goes last. *)
Fixpoint set {V} (k : string) (v : V) (d : t V) : t V :=
  match d with
  | [] => [(k, v)]
  | (k', v') :: d' =>
      if String.eqb k k' then (k, v) :: d' else (k', v') :: set k v d'
  end.

(** [del d[k]] *)
Fixpoint del {V} (k : string) (d : t V) : t V :=
  match d with
  | [] => []
  | (k', v') :: d' => if String.eqb k k' then d' else (k', v') :: del k d'
  end.

Definition keys {V} (d : t V) : list string := map fst d.

Definition values {V} (d : t V) : list V := map snd d.

End Dict.

(** ** Data model *)

(** A function or method entry: a bare signature string, or a dictionary
    whose keys [signature], [calls] and [called_by] may each be absent. *)
Inductive SymbolRecord : Type :=
| SigStr (sig : string)
| SymDict (signature : option string)
          (calls : option (list string))
          (called_by : option (list string)).

(** A class entry; [methods = None] is a class without a [methods] key. *)
Record ClassRecord : Type := mkClass {
  methods : option (Dict.t SymbolRecord)
}.

Record FileRecord : Type := mkFile {
  language : string;
  parsed : bool;
  purpose : option string;
  functions : option (Dict.t SymbolRecord);
  classes : option (Dict.t ClassRecord);
  imports : option (list string)
}.

Record Stats : Type := mkStats {
  total_files : Z;
  total_directories : Z;
  fully_parsed : Dict.t Z;
  listed_only : Dict.t Z;
  markdown_files : Z
}.

Record Index : Type := mkIndex {
  indexed_at : string;
  root : string;
  tree : list string;
  stats : Stats;
  files : Dict.t FileRecord;
  dependency_graph : Dict.t (list string)
}.

Definition sym_calls (d : SymbolRecord) : option (list string) :=
  match d with
  | SigStr _ => None
  | SymDict _ c _ => c
  end.

Definition sym_called_by (d : SymbolRecord) : option (list string) :=
  match d with
  | SigStr _ => None
  | SymDict _ _ cb => cb
  end.


(** ** Call graph builder ([build_index], second half) *)

Module CallGraph.

(** [f"{class_name}.{method_name}"] *)
Definition qualified (class_name method_name : string) : string :=
  class_name +:+ "." +:+ method_name.

(** The two dictionaries of pass 1: [call_graph] and [called_by_graph]. *)
Record Graphs : Type := mkGraphs {
  call_graph : gmap string (list string);
  called_by_graph : gmap string (list string)
}.

Definition empty_graphs : Graphs := mkGraphs ∅ ∅.

(** [if called not in g: g[called] = []] then [g[called].append(caller)] *)
Definition add_caller (caller : string)
    (g : gmap string (list string)) (called : string) :
    gmap string (list string) :=
  <[called := (default [] (g !! called) ++ [caller])%list]> g.

(** One symbol with a [calls] list: record the forward edge under
    [full_name], then one reverse edge per callee under [caller]. *)
Definition register (full_name caller : string) (calls : list string)
    (g : Graphs) : Graphs :=
  mkGraphs (<[full_name := calls]> (call_graph g))
           (fold_left (add_caller caller) calls (called_by_graph g)).

Definition collect_symbol (full_name caller : string) (d : SymbolRecord)
    (g : Graphs) : Graphs :=
  match sym_calls d with
  | Some calls => register full_name caller calls g
  | None => g
  end.

Definition collect_function (file_path : string) (g : Graphs)
    (e : string * SymbolRecord) : Graphs :=
  collect_symbol (file_path +:+ ":" +:+ e.1) e.1 e.2 g.

Definition collect_method (file_path class_name : string) (g : Graphs)
    (e : string * SymbolRecord) : Graphs :=
  collect_symbol (file_path +:+ ":" +:+ qualified class_name e.1)
                 (qualified class_name e.1) e.2 g.

Definition collect_class (file_path : string) (g : Graphs)
    (e : string * ClassRecord) : Graphs :=
  match methods e.2 with
  | Some ms => fold_left (collect_method file_path e.1) ms g
  | None => g
  end.

Definition collect_file (g : Graphs) (e : string * FileRecord) : Graphs :=
  let g1 := match functions e.2 with
            | Some fs => fold_left (collect_function e.1) fs g
            | None => g
            end in
  match classes e.2 with
  | Some cs => fold_left (collect_class e.1) cs g1
  | None => g1
  end.

(** Pass 1 over [index['files'].items()]. *)
Definition collect (fl : Dict.t FileRecord) : Graphs :=
  fold_left collect_file fl empty_graphs.

(** [func_data['called_by'] = callers], promoting a bare string. *)
Definition attach (callers : list string) (d : SymbolRecord) : SymbolRecord :=
  match d with
  | SigStr s => SymDict (Some s) None (Some callers)
  | SymDict s c _ => SymDict s c (Some callers)
  end.

Definition merge_function (cbg : gmap string (list string))
    (e : string * SymbolRecord) : string * SymbolRecord :=
  match cbg !! e.1 with
  | Some callers => (e.1, attach callers e.2)
  | None => e
  end.

(** [list(set(callers))] *)
Definition list_set (l : list string) : list string :=
  elements (list_to_set l : gset string).

Definition merge_method (cbg : gmap string (list string))
    (class_name : string) (e : string * SymbolRecord) :
    string * SymbolRecord :=
  let full_name := qualified class_name e.1 in
  if bool_decide (is_Some (cbg !! e.1)) || bool_decide (is_Some (cbg !! full_name))
  then
    let callers := (default [] (cbg !! e.1) ++ default [] (cbg !! full_name))%list in
    match callers with
    | [] => e
    | _ :: _ => (e.1, attach (list_set callers) e.2)
    end
  else e.

Definition merge_class (cbg : gmap string (list string))
    (e : string * ClassRecord) : string * ClassRecord :=
  match methods e.2 with
  | Some ms => (e.1, mkClass (Some (map (merge_method cbg e.1) ms)))
  | None => e
  end.

Definition merge_file (cbg : gmap string (list string))
    (e : string * FileRecord) : string * FileRecord :=
  let fr := e.2 in
  (e.1,
   mkFile (language fr) (parsed fr) (purpose fr)
          (map (merge_function cbg) <$> functions fr)
          (map (merge_class cbg) <$> classes fr)
          (imports fr)).

(** Pass 2 over [index['files'].items()]. *)
Definition merge_back (cbg : gmap string (list string))
    (fl : Dict.t FileRecord) : Dict.t FileRecord :=
  map (merge_file cbg) fl.

Definition build_call_graph (fl : Dict.t FileRecord) : Dict.t FileRecord :=
  merge_back (called_by_graph (collect fl)) fl.

(** The symbols of a snapshot, with the bare name each is known by. *)
Inductive symbol (fl : Dict.t FileRecord) : string -> SymbolRecord -> Prop :=
| symbol_function path fr fs name d :
    In (path, fr) fl -> functions fr = Some fs -> In (name, d) fs ->
    symbol fl name d
| symbol_method path fr cs class_name cr ms name d :
    In (path, fr) fl -> classes fr = Some cs -> In (class_name, cr) cs ->
    methods cr = Some ms -> In (name, d) ms ->
    symbol fl (qualified class_name name) d.

(** The names a symbol answers to as a callee: a function by its name, a
    method by its bare name and by [Class.method]. *)
Inductive named (fl : Dict.t FileRecord) : string -> SymbolRecord -> Prop :=
| named_function path fr fs name d :
    In (path, fr) fl -> functions fr = Some fs -> In (name, d) fs ->
    named fl name d
| named_method_bare path fr cs class_name cr ms name d :
    In (path, fr) fl -> classes fr = Some cs -> In (class_name, cr) cs ->
    methods cr = Some ms -> In (name, d) ms ->
    named fl name d
| named_method_qualified path fr cs class_name cr ms name d :
    In (path, fr) fl -> classes fr = Some cs -> In (class_name, cr) cs ->
    methods cr = Some ms -> In (name, d) ms ->
    named fl (qualified class_name name) d.

(** [s] is recorded as a caller of [c]. *)
Definition has_edge (c s : string) (g : gmap string (list string)) : Prop :=
  exists l, g !! c = Some l /\ In s l.

Definition edge_in (c s : string) (g : Graphs) : Prop :=
  has_edge c s (called_by_graph g).

End CallGraph.

Module CallGraphExamples.
Import CallGraph.

Definition plain (fs : Dict.t SymbolRecord) (cs : Dict.t ClassRecord) : FileRecord :=
  mkFile "python" true None (Some fs) (Some cs) None.

Definition two_files : Dict.t FileRecord :=
  [ ("a.py", plain [("f", SymDict (Some "def f()") (Some ["g"; "run"]) None);
                    ("g", SigStr "def g()");
                    ("h", SigStr "def h()")] []);
    ("b.py", plain [("g", SymDict (Some "def g(x)") None None)]
                   [("K", mkClass (Some [("run", SigStr "def run(self)");
                                         ("stop", SymDict None (Some ["g"]) None)]))]) ].



End CallGraphExamples.


(** ** Python string operations used by the script *)

Module Py.

(** [s.startswith(p)] *)
Definition startswith (p s : string) : bool := String.prefix p s.

(** [s[n:]] *)
Fixpoint drop (n : nat) (s : string) : string :=
  match n, s with
  | O, _ => s
  | S n', String _ s' => drop n' s'
  | S _, EmptyString => EmptyString
  end.

(** [s.split(sep)] for a one-character separator; [cur] is the piece being
    read.  The result is never empty: [''.split('/') == ['']]. *)
Fixpoint split_from (sep : ascii) (cur : string) (s : string) : list string :=
  match s with
  | EmptyString => [cur]
  | String a s' =>
      if Ascii.eqb a sep then cur :: split_from sep EmptyString s'
      else split_from sep (cur +:+ String a EmptyString) s'
  end.

Definition split (sep : ascii) (s : string) : list string :=
  split_from sep EmptyString s.

(** [sep.join(l)] *)
Definition join (sep : string) (l : list string) : string :=
  String.concat sep l.

Definition slash : ascii := Ascii.ascii_of_nat 47.
Definition backslash : ascii := Ascii.ascii_of_nat 92.

(** [s.replace('\\', '/')] *)
Fixpoint replace_backslash (s : string) : string :=
  match s with
  | EmptyString => EmptyString
  | String a s' =>
      String (if Ascii.eqb a backslash then slash else a) (replace_backslash s')
  end.

(** [s.endswith('/')] *)
Fixpoint ends_with_slash (s : string) : bool :=
  match s with
  | EmptyString => false
  | String a EmptyString => Ascii.eqb a slash
  | String _ s' => ends_with_slash s'
  end.

End Py.

(** ** [pathlib.PurePosixPath], as far as the resolver uses it *)

Module PurePath.

(** A parsed path: the root ([""], ["/"] or ["//"]) and the components,
    with empty and ["."] components dropped. *)
Record t : Type := mk { anchor : string; parts : list string }.

(** [posixpath.splitroot] *)
Definition splitroot (s : string) : string * string :=
  if negb (Py.startswith "/" s) then ("", s)
  else if negb (Py.startswith "//" s) || Py.startswith "///" s
       then ("/", Py.drop 1 s)
       else ("//", Py.drop 2 s).

Definition keep_part (x : string) : bool :=
  negb (String.eqb x "") && negb (String.eqb x ".").

(** [Path(s)] *)
Definition parse (s : string) : t :=
  let '(r, rel) := splitroot s in
  mk r (List.filter keep_part (Py.split Py.slash rel)).

(** [str(p)] *)
Definition to_str (p : t) : string :=
  match anchor p, parts p with
  | "", [] => "."
  | r, ps => r +:+ Py.join "/" ps
  end.

(** [posixpath.join(a, b)] *)
Definition posix_join (a b : string) : string :=
  if Py.startswith "/" b then b
  else if String.eqb a "" || Py.ends_with_slash a then a +:+ b
  else a +:+ "/" +:+ b.

(** [p / seg] *)
Definition joinpath (p : t) (seg : string) : t :=
  parse (posix_join (to_str p) seg).

(** [p.parent]: a path without components is its own parent. *)
Definition parent (p : t) : t :=
  match parts p with
  | [] => p
  | ps => mk (anchor p) (removelast ps)
  end.

End PurePath.

(** ** Dependency graph resolver ([build_index], first half) *)

Module Resolver.

Definition known_extensions : list string :=
  [".py"; ".js"; ".ts"; ".jsx"; ".tsx"; ""].

(** The [for ext in [...]] loop: the first extension under which the base
    path, or the base path with backslashes turned into slashes, is a key
    of the file mapping. *)
Fixpoint first_match {V} (fl : Dict.t V) (resolved : string)
    (exts : list string) : option string :=
  match exts with
  | [] => None
  | ext :: exts' =>
      let potential_file := resolved +:+ ext in
      if Dict.mem potential_file fl
         || Dict.mem (Py.replace_backslash potential_file) fl
      then Some (Py.replace_backslash potential_file)
      else first_match fl resolved exts'
  end.

(** The base path a relative import resolves to. *)
Definition resolve_base (file_dir : PurePath.t) (imp : string) : string :=
  if Py.startswith "./" imp then
    PurePath.to_str (PurePath.joinpath file_dir (Py.drop 2 imp))
  else if Py.startswith "../" imp then
    let parts := Py.split Py.slash imp in
    let up_levels := length (List.filter (String.eqb "..") parts) in
    let target_dir := Nat.iter up_levels PurePath.parent file_dir in
    let remaining :=
      Py.join "/" (List.filter (fun p => negb (String.eqb p "..")) parts) in
    if String.eqb remaining "" then PurePath.to_str target_dir
    else PurePath.to_str (PurePath.joinpath target_dir remaining)
  else PurePath.to_str file_dir.

(** What one import contributes to [dependencies]: nothing, or one entry. *)
Definition resolve_import {V} (fl : Dict.t V) (file_dir : PurePath.t)
    (imp : string) : list string :=
  if Py.startswith "." imp then
    match first_match fl (resolve_base file_dir imp) known_extensions with
    | Some target => [target]
    | None => []
    end
  else [imp].

Definition dependencies_of {V} (fl : Dict.t V) (file_path : string)
    (imps : list string) : list string :=
  let file_dir := PurePath.parent (PurePath.parse file_path) in
  flat_map (resolve_import fl file_dir) imps.

(** One iteration of the loop over [index['files'].items()]. *)
Definition resolve_file (fl : Dict.t FileRecord)
    (graph : Dict.t (list string)) (e : string * FileRecord) :
    Dict.t (list string) :=
  match imports e.2 with
  | Some ((_ :: _) as imps) =>
      match dependencies_of fl e.1 imps with
      | [] => graph
      | deps => Dict.set e.1 deps graph
      end
  | _ => graph
  end.

Definition build_dependency_graph (fl : Dict.t FileRecord) :
    Dict.t (list string) :=
  fold_left (resolve_file fl) fl [].

End Resolver.

Module ResolverExamples.

Definition src (imps : list string) : FileRecord :=
  mkFile "python" true None (Some []) (Some []) (Some imps).

Definition bare : FileRecord := mkFile "python" false None None None None.

Definition same_dir : Dict.t FileRecord :=
  [ ("a/b.py", src ["./c"]); ("a/c.py", bare) ].

Definition parent_dir : Dict.t FileRecord :=
  [ ("a/b/x.py", src ["../y"; "os"]); ("a/y.py", bare) ].

Definition both_dirs : Dict.t FileRecord := (same_dir ++ parent_dir)%list.

End ResolverExamples.

(** ** Per-file indexing step ([build_index], the code-file branch) *)

Module Indexing.

(** What a signature extractor returns: the [functions] and [classes]
    mappings and, for source files, the raw [imports] list. *)
Record Extracted : Type := mkExtracted {
  ex_functions : Dict.t SymbolRecord;
  ex_classes : Dict.t ClassRecord;
  ex_imports : option (list string)
}.

(** A call that returns or raises. *)
Inductive outcome (A : Type) : Type :=
| Returned (a : A)
| Raised (msg : string).
Arguments Returned {A} a.
Arguments Raised {A} msg.

(** [d[k] = d.get(k, 0) + 1] *)
Definition bump (k : string) (d : Dict.t Z) : Dict.t Z :=
  Dict.set k (default 0 (Dict.get k d) + 1) d.

(** [sum(d.values())] *)
Definition total (d : Dict.t Z) : Z := fold_right Z.add 0 (Dict.values d).

Section WithUtils.

(** Supplied by [index_utils]: the suffix-to-language table of the parsers,
    the display name of a suffix, and the three extractors. *)
Variable PARSEABLE_LANGUAGES : Dict.t string.
Variable get_language_name : string -> string.
Variable extract_python_signatures : string -> outcome Extracted.
Variable extract_javascript_signatures : string -> outcome Extracted.
Variable extract_shell_signatures : string -> outcome Extracted.

Definition is_in (x : string) (l : list string) : bool :=
  existsb (String.eqb x) l.

(** The [if/elif/else] that picks the extractor by suffix. *)
Definition extract (suffix content : string) : outcome Extracted :=
  if String.eqb suffix ".py" then extract_python_signatures content
  else if is_in suffix [".js"; ".ts"; ".jsx"; ".tsx"]
  then extract_javascript_signatures content
  else if is_in suffix [".sh"; ".bash"] then extract_shell_signatures content
  else Returned (mkExtracted [] [] None).

Definition with_fully_parsed (st : Stats) (d : Dict.t Z) : Stats :=
  mkStats (total_files st) (total_directories st) d (listed_only st)
          (markdown_files st).

Definition with_listed_only (st : Stats) (d : Dict.t Z) : Stats :=
  mkStats (total_files st) (total_directories st) (fully_parsed st) d
          (markdown_files st).

Definition nonempty {A} (l : list A) : bool :=
  match l with [] => false | _ :: _ => true end.

(** One code file: its suffix, inferred purpose and the result of reading
    it.  Returns the record stored under the file's path and the updated
    counters. *)
Definition index_code_file (suffix : string) (file_purpose : option string)
    (read_text : outcome string) (st : Stats) : FileRecord * Stats :=
  let language := get_language_name suffix in
  let file_info := mkFile language false file_purpose None None None in
  match Dict.get suffix PARSEABLE_LANGUAGES with
  | Some lang_key =>
      match read_text with
      | Returned content =>
          match extract suffix content with
          | Returned extracted =>
              let file_info' :=
                if nonempty (ex_functions extracted)
                   || nonempty (ex_classes extracted)
                then mkFile language true file_purpose
                            (Some (ex_functions extracted))
                            (Some (ex_classes extracted))
                            (ex_imports extracted)
                else file_info in
              (file_info',
               with_fully_parsed st (bump lang_key (fully_parsed st)))
          | Raised _ =>
              (file_info, with_listed_only st (bump language (listed_only st)))
          end
      | Raised _ =>
          (file_info, with_listed_only st (bump language (listed_only st)))
      end
  | None => (file_info, with_listed_only st (bump language (listed_only st)))
  end.

End WithUtils.

End Indexing.

(** ** Size governor ([compress_index_if_needed]) *)

Module Governor.

Definition MAX_INDEX_SIZE : Z := 1024 * 1024.

Definition with_tree (idx : Index) (t : list string) : Index :=
  mkIndex (indexed_at idx) (root idx) t (stats idx) (files idx)
          (dependency_graph idx).

Definition with_files (idx : Index) (fl : Dict.t FileRecord) : Index :=
  mkIndex (indexed_at idx) (root idx) (tree idx) (stats idx) fl
          (dependency_graph idx).

(** Keep the first 100 tree lines and add a marker. *)
Definition truncate_tree (idx : Index) : Index :=
  if (100 <? length (tree idx))%nat
  then with_tree idx (firstn 100 (tree idx) ++ ["... (truncated)"])%list
  else idx.

(** The [for ... if not info.get('parsed', False): del ...; break] pass:
    the first record that is not parsed is deleted; keys being unique,
    deleting its key deletes that record.  Without such a record the
    mapping is left as it is. *)
Fixpoint remove_first_unparsed (fl : Dict.t FileRecord) : Dict.t FileRecord :=
  match fl with
  | [] => []
  | (path, info) :: fl' =>
      if negb (parsed info) then fl'
      else (path, info) :: remove_first_unparsed fl'
  end.

Definition unparsed_count (fl : Dict.t FileRecord) : nat :=
  length (List.filter (fun e : string * FileRecord => negb (parsed e.2)) fl).

Definition parsed_only (fl : Dict.t FileRecord) : Dict.t FileRecord :=
  List.filter (fun e : string * FileRecord => parsed e.2) fl.

Section WithSerializer.

(** [len(json.dumps(index, indent=2))] *)
Variable dumps_len : Index -> Z.

Definition over_budget (idx : Index) : bool :=
  (MAX_INDEX_SIZE <? dumps_len idx) && Indexing.nonempty (files idx).

(** The [while] loop, with a bound on the number of iterations: [None]
    when the bound is reached with the loop condition still true. *)
Fixpoint compress_loop (fuel : nat) (idx : Index) : option Index :=
  match fuel with
  | O => None
  | S fuel' =>
      if over_budget idx
      then compress_loop fuel'
             (with_files idx (remove_first_unparsed (files idx)))
      else Some idx
  end.

Definition compress_index_if_needed (fuel : nat) (idx : Index) : option Index :=
  if dumps_len idx <=? MAX_INDEX_SIZE then Some idx
  else compress_loop fuel (truncate_tree idx).

(** The snapshot after tree truncation with every unparsed record removed. *)
Definition stripped (idx : Index) : Index :=
  with_files (truncate_tree idx) (parsed_only (files idx)).

End WithSerializer.

End Governor.

Module IndexingExamples.
Import Indexing.

(** A stand-in for the [index_utils] table and extractors: Python files are
    parseable, and the extractor finds nothing in an empty file. *)
Definition parseable : Dict.t string := [(".py", "python")].

Definition language_name (suffix : string) : string :=
  if String.eqb suffix ".py" then "python" else "unknown".

Definition finds_nothing (content : string) : outcome Extracted :=
  Returned (mkExtracted [] [] (Some [])).

End IndexingExamples.

Module GovernorExamples.
Import Governor.

Definition parsed_file : FileRecord :=
  mkFile "python" true None (Some [("f", SigStr "def f()")]) (Some []) None.

Definition listed_file : FileRecord :=
  mkFile "text" false None None None None.

Definition empty_stats : Stats := mkStats 0 0 [] [] 0.

(** A snapshot with one listed-only and one fully parsed record. *)
Definition heavy : Index :=
  mkIndex "2025-01-01T00:00:00" "." ["."]
          (mkStats 2 0 [("python", 1)] [("text", 1)] 0)
          [("notes.txt", listed_file); ("a.py", parsed_file)] [].

(** A sample measure: a fixed part of 1 MiB (a large documentation map,
    say) plus one unit per tree line and per file record. *)
Definition sample_len (idx : Index) : Z :=
  MAX_INDEX_SIZE + Z.of_nat (length (tree idx)) + Z.of_nat (length (files idx)).

End GovernorExamples.

(** ** Change records and the backup log *)

Module Records.

Record FileChanges : Type := mkFileChanges {
  files_added : list string;
  files_removed : list string;
  files_modified : list string
}.

(** The reasons the analyzer collects, as data; the script joins their
    renderings with ["; "] into the note. *)
Inductive Reason : Type :=
| LargeFileChange (n : Z)
| LargeDirChange (n : Z)
| ManyRemoved (n : nat)
| RatioChanged (old_ratio new_ratio : float).

(** The free-text note, by the template it is rendered from. *)
Inductive Note : Type :=
| NoteEmpty
| NoteBackupCreated
| NoteInitial
| NoteUnreadable (err : string)
| NoteReasons (rs : list Reason)
| NoteRoutine (file_change dir_change : Z).

(** [change_data]; [None] is the empty dictionary the record starts with. *)
Record ChangeData : Type := mkChangeData {
  old_stats : option Stats;
  new_stats : option Stats;
  file_changes : option FileChanges;
  significance_level : string;
  notes : Note
}.

Record Changes : Type := mkChanges {
  n_files_added : nat;
  n_files_removed : nat;
  n_files_modified : nat;
  directories_added : Z
}.

(** One entry of the backup log.  [None] in the first four optional fields
    is [null] or [{}]; [operation_success = None] is an entry that has not
    been completed.  The note carries the flag of its [" | Success: False"]
    suffix. *)
Record BackupEntry : Type := mkEntry {
  timestamp : string;
  backup_filename : string;
  backup_size_bytes : Z;
  previous_stats : option Stats;
  entry_new_stats : option Stats;
  changes : option Changes;
  entry_file_changes : option FileChanges;
  entry_significance_level : string;
  entry_notes : Note * bool;
  operation_success : option bool
}.

Record LogData : Type := mkLog {
  created_at : string;
  project_path : string;
  entries : list BackupEntry
}.

End Records.

(** ** The world: files, clock, standard output *)

Module World.
Import Records.

(** What a file holds: one of the two JSON documents the script writes, or
    anything else, which does not decode. *)
Inductive Content : Type :=
| CIndex (idx : Index)
| CLog (log : LogData)
| CRaw (text : string).

Record File : Type := mkFileNode { content : Content; mtime : Z }.

Inductive ExnClass : Type :=
| OSError | JSONDecodeError | AttributeError | KeyError | EOFError
| KeyboardInterrupt.

Record Exn : Type := mkExn { exn_class : ExnClass; exn_msg : string }.

(** [except Exception] does not catch [KeyboardInterrupt]. *)
Definition is_Exception (e : Exn) : bool :=
  match exn_class e with
  | KeyboardInterrupt => false
  | _ => true
  end.

(** The lines the script prints that report an outcome, one constructor per
    format string. *)
Inductive Msg : Type :=
| MsgCouldNotLoadLog (e : Exn)
| MsgCouldNotSaveLog (e : Exn)
| MsgRemovedOldBackup (name : string)
| MsgCouldNotRemove (name : string) (e : Exn)
| MsgRotationFailed (e : Exn)
| MsgNoExistingIndex
| MsgBackupCreated (name : string) (size : Z)
| MsgBackupFailed (e : Exn)
| MsgCreatingNew
| MsgCouldNotReadPrevious (e : Exn)
| MsgStatistics (file_change dir_change : Z) (fc : FileChanges)
| MsgWarning (r : Reason)
| MsgLooksReasonable
| MsgAutoApproving
| MsgSignificantDetected
| MsgOperationCancelled
| MsgSaved (path : string)
| MsgSaveFailed (e : Exn)
| MsgRestored
| MsgRollbackFailed (e : Exn)
| MsgCouldNotCompleteLog (e : Exn)
| MsgBuildFailed (e : Exn)
| MsgUpdateCancelled
| MsgSummary
| MsgUnexpected (e : Exn).

(** File-system calls that can fail, and what a failure leaves behind: the
    message of the error and, for a write or a copy, the partial content of
    the destination if any was produced. *)
Inductive Op : Type :=
| OpMkdir (p : string)
| OpRead (p : string)
| OpWrite (p : string)
| OpReplace (src dst : string)
| OpCopy (src dst : string)
| OpUnlink (p : string)
| OpStat (p : string).

Record Failure : Type := mkFailure {
  failure_msg : string;
  residue : option Content
}.

Record t : Type := mkWorld {
  fs : gmap string File;
  clock : Z;
  stdout : list Msg
}.

Inductive result (A : Type) : Type :=
| Ok (a : A)
| Raise (e : Exn).
Arguments Ok {A} a.
Arguments Raise {A} e.

(** Computations that read and change the world and may raise. *)
Definition M (A : Type) : Type := t -> result A * t.

Definition ret {A} (a : A) : M A := fun w => (Ok a, w).

Definition raise {A} (e : Exn) : M A := fun w => (Raise e, w).

Definition bind {A B} (m : M A) (k : A -> M B) : M B :=
  fun w => match m w with
           | (Ok a, w') => k a w'
           | (Raise e, w') => (Raise e, w')
           end.

(** [try: body / except Exception as e: handler(e)] *)
Definition try_except {A} (body : M A) (handler : Exn -> M A) : M A :=
  fun w => match body w with
           | (Raise e, w') =>
               if is_Exception e then handler e w' else (Raise e, w')
           | r => r
           end.

Declare Scope world_scope.
Delimit Scope world_scope with world.
Notation "x <- m ;; k" := (bind m (fun x => k))
  (at level 100, m at next level, right associativity) : world_scope.
Notation "m ;;; k" := (bind m (fun _ => k))
  (at level 100, right associativity) : world_scope.
Local Open Scope world_scope.

(** A [for] loop whose body may raise. *)
Fixpoint for_each {A} (l : list A) (body : A -> M unit) : M unit :=
  match l with
  | [] => ret tt
  | x :: l' => body x ;;; for_each l' body
  end.

Fixpoint map_m {A B} (f : A -> M B) (l : list A) : M (list B) :=
  match l with
  | [] => ret []
  | x :: l' => y <- f x ;; ys <- map_m f l' ;; ret (y :: ys)
  end.


Definition print (m : Msg) : M unit :=
  fun w => (Ok tt, mkWorld (fs w) (clock w) (stdout w ++ [m])%list).

Definition with_fs (w : t) (f : gmap string File) : t :=
  mkWorld f (clock w) (stdout w).

Definition os_error {A} (msg : string) : M A := raise (mkExn OSError msg).

Section WithFaults.

(** Which calls fail in this run. *)
Variable fault : Op -> option Failure.

Definition leave_residue (p : string) (f : Failure) (w : t) : t :=
  match residue f with
  | Some c => with_fs w (<[p := mkFileNode c (clock w)]> (fs w))
  | None => w
  end.

(** [p.exists()] *)
Definition path_exists (p : string) : M bool :=
  fun w => (Ok (bool_decide (is_Some (fs w !! p))), w).

(** [p.mkdir(exist_ok=True)]; directories are not tracked beyond this. *)
Definition mkdir (p : string) : M unit :=
  match fault (OpMkdir p) with
  | Some f => os_error (failure_msg f)
  | None => ret tt
  end.

(** [json.load(open(p))] *)
Definition read_json (p : string) : M Content :=
  match fault (OpRead p) with
  | Some f => os_error (failure_msg f)
  | None =>
      fun w => match fs w !! p with
               | None => (Raise (mkExn OSError "No such file or directory"), w)
               | Some (mkFileNode (CRaw _) _) =>
                   (Raise (mkExn JSONDecodeError "Expecting value"), w)
               | Some (mkFileNode c _) => (Ok c, w)
               end
  end.

(** Writing a whole file: [write_text] and [json.dump] into [open(p, 'w')]. *)
Definition write_file (p : string) (c : Content) : M unit :=
  match fault (OpWrite p) with
  | Some f => fun w => (Raise (mkExn OSError (failure_msg f)), leave_residue p f w)
  | None =>
      fun w => (Ok tt, mkWorld (<[p := mkFileNode c (clock w)]> (fs w))
                               (clock w + 1) (stdout w))
  end.

(** [src.replace(dst)]: all or nothing. *)
Definition replace (src dst : string) : M unit :=
  match fault (OpReplace src dst) with
  | Some f => os_error (failure_msg f)
  | None =>
      fun w => match fs w !! src with
               | None => (Raise (mkExn OSError "No such file or directory"), w)
               | Some file => (Ok tt, with_fs w (<[dst := file]> (delete src (fs w))))
               end
  end.

(** [shutil.copy2(src, dst)]: content and modification time. *)
Definition copy2 (src dst : string) : M unit :=
  match fault (OpCopy src dst) with
  | Some f => fun w => (Raise (mkExn OSError (failure_msg f)), leave_residue dst f w)
  | None =>
      fun w => match fs w !! src with
               | None => (Raise (mkExn OSError "No such file or directory"), w)
               | Some file => (Ok tt, with_fs w (<[dst := file]> (fs w)))
               end
  end.

(** [p.unlink()] *)
Definition unlink (p : string) : M unit :=
  match fault (OpUnlink p) with
  | Some f => os_error (failure_msg f)
  | None =>
      fun w => match fs w !! p with
               | None => (Raise (mkExn OSError "No such file or directory"), w)
               | Some _ => (Ok tt, with_fs w (delete p (fs w)))
               end
  end.

(** [p.stat()] *)
Definition stat (p : string) : M File :=
  match fault (OpStat p) with
  | Some f => os_error (failure_msg f)
  | None =>
      fun w => match fs w !! p with
               | None => (Raise (mkExn OSError "No such file or directory"), w)
               | Some file => (Ok file, w)
               end
  end.

End WithFaults.

(** No call fails. *)
Definition no_fault : Op -> option Failure := fun _ => None.

End World.

(** ** Backups, rotation and the log *)

Module Backup.
Import Records World.
Local Open Scope world_scope.

Definition star : ascii := Ascii.ascii_of_nat 42.
Definition dot : ascii := Ascii.ascii_of_nat 46.

(** [fnmatch] for patterns made of literal characters and [*]. *)
Fixpoint glob_match (pat s : string) : bool :=
  match pat with
  | EmptyString =>
      match s with EmptyString => true | String _ _ => false end
  | String c pat' =>
      if Ascii.eqb c star then
        (fix skip (s : string) : bool :=
           glob_match pat' s
           || match s with
              | EmptyString => false
              | String _ s' => skip s'
              end) s
      else
        match s with
        | String c' s' => Ascii.eqb c c' && glob_match pat' s'
        | EmptyString => false
        end
  end.

Fixpoint has_slash (s : string) : bool :=
  match s with
  | EmptyString => false
  | String a s' => Ascii.eqb a Py.slash || has_slash s'
  end.

(** The name of [p] inside directory [dir], if [p] lies directly in it. *)
Definition child_name (dir p : string) : option string :=
  if Py.startswith (dir +:+ "/") p then
    let name := Py.drop (String.length dir + 1) p in
    if has_slash name || String.eqb name "" then None else Some name
  else None.

Definition matches_in (dir pattern p : string) : bool :=
  match child_name dir p with
  | Some name => glob_match pattern name
  | None => false
  end.

(** [list(dir.glob(pattern))], in the order the directory is listed. *)
Definition glob (dir pattern : string) (w : World.t) : list string :=
  List.filter (matches_in dir pattern) (map fst (map_to_list (fs w))).

(** [sort(key=mtime, reverse=True)]: newest first, files of equal time in
    their listing order. *)
Fixpoint insert_newest_first (x : string * Z) (l : list (string * Z)) :
    list (string * Z) :=
  match l with
  | [] => [x]
  | y :: l' =>
      if y.2 <=? x.2 then x :: y :: l' else y :: insert_newest_first x l'
  end.

Definition sort_newest_first (l : list (string * Z)) : list (string * Z) :=
  fold_right insert_newest_first [] l.

Definition backup_pattern : string := "PROJECT_INDEX_*.json".

Definition log_file_name : string := "PROJECT_INDEX_backups_log.json".


(** [a] is at least as recent as [b]. *)
Definition not_older (a b : string * Z) : Prop := b.2 <= a.2.


(** [Path(p).with_suffix(suffix)]: the text after the last dot of the final
    component, if that dot is not its first or last character, is replaced. *)
Fixpoint split_suffix (rev_chars : list ascii) (seen : list ascii) :
    option (list ascii) :=
  match rev_chars with
  | [] => None
  | c :: rest =>
      if Ascii.eqb c Py.slash then None
      else if Ascii.eqb c dot then
        match rest, seen with
        | [], _ => None
        | _, [] => None
        | r :: _, _ => if Ascii.eqb r Py.slash then None else Some rest
        end
      else split_suffix rest (c :: seen)
  end.

Definition with_suffix (suffix p : string) : string :=
  let chars := list_ascii_of_string p in
  match split_suffix (rev chars) [] with
  | Some rev_stem => string_of_list_ascii (rev rev_stem) +:+ suffix
  | None => p +:+ suffix
  end.

(** What [create_backup] returns besides [None]: the [BackupInfo] object. *)
Record BackupInfo : Type := mkBackupInfo {
  path : string;
  _backup_info : BackupEntry;
  _log_data : Content;
  _backup_dir : string
}.

(** The values the variable [backup_path] of [main] can hold, and a plain
    path as the signature of [safe_save_index] announces. *)
Inductive BackupArg : Type :=
| BNone
| BPath (p : string)
| BInfo (b : BackupInfo).

Definition backup_dir_name : string := ".claude-index-backups".


Section WithEnvironment.

Variable fault : Op -> option Failure.
(** [st_size] of a file with the given content. *)
Variable size_of : Content -> Z.
(** [datetime.now()] as [%Y%m%d_%H%M%S] and as ISO text; the working
    directory. *)
Variable stamp : string.
Variable now_iso : string.
Variable cwd : string.

Definition new_log : LogData := mkLog now_iso cwd [].

Definition load_backup_log (backup_dir : string) : M Content :=
  let log_file := backup_dir +:+ "/" +:+ log_file_name in
  present <- path_exists log_file ;;
  if present then
    try_except (read_json fault log_file)
               (fun e => print (MsgCouldNotLoadLog e) ;;; ret (CLog new_log))
  else ret (CLog new_log).

Definition save_backup_log (backup_dir : string) (log_data : Content) : M unit :=
  let log_file := backup_dir +:+ "/" +:+ log_file_name in
  try_except (write_file fault log_file log_data)
             (fun e => print (MsgCouldNotSaveLog e)).

Definition manage_backup_rotation (backup_dir : string) (max_backups : nat) :
    M unit :=
  try_except
    (fun w =>
       (backup_files <-
          map_m (fun p => f <- stat fault p ;; ret (p, mtime f))
                (glob backup_dir backup_pattern w) ;;
        let backup_files := sort_newest_first backup_files in
        if (max_backups <? length backup_files)%nat then
          for_each (skipn max_backups backup_files)
            (fun old_backup =>
               let name := default "" (child_name backup_dir old_backup.1) in
               try_except
                 (unlink fault old_backup.1 ;;;
                  print (MsgRemovedOldBackup name))
                 (fun e => print (MsgCouldNotRemove name e)))
        else ret tt) w)
    (fun e => print (MsgRotationFailed e)).

(** [log_data["entries"].append(...)], keeping the last 100 entries. *)
Definition last_100 (l : list BackupEntry) : list BackupEntry :=
  if (100 <? length l)%nat then skipn (length l - 100) l else l.

Definition log_backup_creation (log_data : Content) (backup_info : BackupEntry) :
    M Content :=
  match log_data with
  | CLog log =>
      ret (CLog (mkLog (created_at log) (project_path log)
                       (last_100 (entries log ++ [backup_info])%list)))
  | _ => raise (mkExn KeyError "entries")
  end.

Definition create_backup (index_path : string) (max_backups : nat) :
    M BackupArg :=
  let backup_dir := backup_dir_name in
  mkdir fault backup_dir ;;;
  log_data <- load_backup_log backup_dir ;;
  present <- path_exists index_path ;;
  if negb present then print MsgNoExistingIndex ;;; ret BNone
  else
    let backup_name := "PROJECT_INDEX_" +:+ stamp +:+ ".json" in
    let backup_path := backup_dir +:+ "/" +:+ backup_name in
    try_except
      (copy2 fault index_path backup_path ;;;
       f <- stat fault backup_path ;;
       let backup_size := size_of (content f) in
       let backup_info :=
         mkEntry now_iso backup_name backup_size None None None None
                 "pending" (NoteBackupCreated, false) None in
       print (MsgBackupCreated backup_name backup_size) ;;;
       manage_backup_rotation backup_dir max_backups ;;;
       ret (BInfo (mkBackupInfo backup_path backup_info log_data backup_dir)))
      (fun e => print (MsgBackupFailed e) ;;; ret BNone).

End WithEnvironment.

End Backup.

(** ** Change analyzer *)

Module Analyzer.
Import Records World Backup.
Local Open Scope world_scope.

(** [len(file.get(key, {}))] *)
Definition count {V} (d : option (Dict.t V)) : nat :=
  match d with Some l => length l | None => O end.

Definition counts_differ (old new : Dict.t FileRecord) (file_path : string) :
    bool :=
  match Dict.get file_path old, Dict.get file_path new with
  | Some old_file, Some new_file =>
      negb (count (functions old_file) =? count (functions new_file))%nat
      || negb (count (classes old_file) =? count (classes new_file))%nat
  | _, _ => false
  end.

(** [get_file_level_changes]; the differences are taken on key sets. *)
Definition get_file_level_changes (old_index : option (Dict.t FileRecord))
    (new_files : Dict.t FileRecord) : FileChanges :=
  match old_index with
  | None => mkFileChanges (Dict.keys new_files) [] []
  | Some old_files =>
      let old_set : gset string := list_to_set (Dict.keys old_files) in
      let new_set : gset string := list_to_set (Dict.keys new_files) in
      mkFileChanges
        (elements (new_set ∖ old_set))
        (elements (old_set ∖ new_set))
        (List.filter (counts_differ old_files new_files)
                     (elements (old_set ∩ new_set)))
  end.

(** A count as a float; exact below [2^53] in absolute value. *)
Definition float_of_Z (z : Z) : float :=
  if z <? 0 then PrimFloat.opp (PrimFloat.of_uint63 (Uint63.of_Z (- z)))
  else PrimFloat.of_uint63 (Uint63.of_Z z).

(** [a / b] on two integers, as Python computes it for such counts. *)
Definition py_truediv (a b : Z) : float :=
  PrimFloat.div (float_of_Z a) (float_of_Z b).

(** The double nearest to [0.2]. *)
Definition point_two : float := 0x1.999999999999ap-3%float.

(** [abs(new_ratio - old_ratio) > 0.2] *)
Definition ratio_shifted (old_ratio new_ratio : float) : bool :=
  PrimFloat.ltb point_two (PrimFloat.abs (PrimFloat.sub new_ratio old_ratio)).

(** [stats.get(key, 0)] for statistics that may be the empty dictionary. *)
Definition stat_of (f : Stats -> Z) (s : option Stats) : Z :=
  match s with Some st => f st | None => 0 end.

Definition parsed_total (s : option Stats) : Z :=
  match s with Some st => Indexing.total (fully_parsed st) | None => 0 end.

(** One [if cond: significant_changes = True; reasons.append(r)] step. *)
Definition flag (cond : bool) (r : Reason) (v : bool * list Reason) :
    bool * list Reason :=
  if cond then (true, (v.2 ++ [r])%list) else v.

(** The four checks, in the order of the script. *)
Definition significance (old_stats new_stats : option Stats)
    (fc : FileChanges) : bool * list Reason :=
  let old_files := stat_of total_files old_stats in
  let new_files := stat_of total_files new_stats in
  let old_dirs := stat_of total_directories old_stats in
  let new_dirs := stat_of total_directories new_stats in
  let file_change := new_files - old_files in
  let dir_change := new_dirs - old_dirs in
  let v := (false, []) in
  let v := flag (10 <? Z.abs file_change) (LargeFileChange (Z.abs file_change)) v in
  let v := flag (5 <? Z.abs dir_change) (LargeDirChange (Z.abs dir_change)) v in
  let v := flag (5 <? length (files_removed fc))%nat
                (ManyRemoved (length (files_removed fc))) v in
  let old_parsed := parsed_total old_stats in
  let new_parsed := parsed_total new_stats in
  if (0 <? old_files) && (0 <? new_files) then
    let old_ratio := py_truediv old_parsed old_files in
    let new_ratio := py_truediv new_parsed new_files in
    flag (ratio_shifted old_ratio new_ratio) (RatioChanged old_ratio new_ratio) v
  else v.

Definition initial_change_data : ChangeData :=
  mkChangeData None None None "auto_approved" NoteEmpty.

(** The path [analyze_changes] reads the previous snapshot from. *)
Definition old_path_of (backup_info : BackupArg) : option string :=
  match backup_info with
  | BNone => None
  | BPath p => Some p
  | BInfo b => Some (path b)
  end.

(** How a decoded document answers [.get("stats", {})] and
    [.get("files", {})]. *)
Definition stats_view (c : Content) : option Stats :=
  match c with CIndex idx => Some (stats idx) | _ => None end.

Definition files_view (c : Content) : Dict.t FileRecord :=
  match c with CIndex idx => files idx | _ => [] end.

Section WithFaults.

Variable fault : Op -> option Failure.

Definition first_version (new_index : Index) : M (bool * ChangeData) :=
  print MsgCreatingNew ;;;
  ret (false,
       mkChangeData None (Some (stats new_index))
                    (Some (get_file_level_changes None (files new_index)))
                    "auto_approved" NoteInitial).

Definition compare_with (old_index : Content) (new_index : Index) :
    M (bool * ChangeData) :=
  let old_stats := stats_view old_index in
  let new_stats := Some (stats new_index) in
  let file_change :=
    stat_of total_files new_stats - stat_of total_files old_stats in
  let dir_change :=
    stat_of total_directories new_stats - stat_of total_directories old_stats in
  let fc := get_file_level_changes (Some (files_view old_index))
                                   (files new_index) in
  print (MsgStatistics file_change dir_change fc) ;;;
  let '(significant_changes, reasons) := significance old_stats new_stats fc in
  for_each reasons (fun r => print (MsgWarning r)) ;;;
  if significant_changes then
    ret (true, mkChangeData old_stats new_stats (Some fc)
                            "requires_confirmation" (NoteReasons reasons))
  else
    print MsgLooksReasonable ;;;
    ret (false, mkChangeData old_stats new_stats (Some fc)
                             "auto_approved"
                             (NoteRoutine file_change dir_change)).

Definition analyze_changes (backup_info : BackupArg) (new_index : Index) :
    M (bool * ChangeData) :=
  match old_path_of backup_info with
  | None => first_version new_index
  | Some old_path =>
      present <- path_exists old_path ;;
      if negb present then first_version new_index
      else
        loaded <- try_except (c <- read_json fault old_path ;; ret (inl c))
                             (fun e => ret (inr e)) ;;
        match loaded with
        | inr e =>
            print (MsgCouldNotReadPrevious e) ;;;
            ret (false,
                 mkChangeData None None None "auto_approved"
                              (NoteUnreadable (exn_msg e)))
        | inl old_index => compare_with old_index new_index
        end
  end.

End WithFaults.

End Analyzer.

(** ** Confirmation, atomic save, log completion and the default action *)

Module Pipeline.
Import Records World Backup Analyzer.
Local Open Scope world_scope.

(** What [input()] does: returns a line, or raises. *)
Inductive Input : Type :=
| Line (s : string)
| InputEOF
| InputInterrupt.

Definition is_space (a : ascii) : bool :=
  let n := Ascii.nat_of_ascii a in
  ((9 <=? n) && (n <=? 13) || (28 <=? n) && (n <=? 32))%nat.

Definition lower_char (a : ascii) : ascii :=
  let n := Ascii.nat_of_ascii a in
  if ((65 <=? n) && (n <=? 90))%nat then Ascii.ascii_of_nat (n + 32) else a.

Fixpoint lstrip (l : list ascii) : list ascii :=
  match l with
  | a :: l' => if is_space a then lstrip l' else l
  | [] => []
  end.

(** [s.lower().strip()] *)
Definition lower_strip (s : string) : string :=
  let l := map lower_char (list_ascii_of_string s) in
  string_of_list_ascii (rev (lstrip (rev (lstrip l)))).

Definition confirm_update (user : Input) (significant_changes : bool) : M bool :=
  if negb significant_changes then print MsgAutoApproving ;;; ret true
  else
    print MsgSignificantDetected ;;;
    match user with
    | Line s =>
        let response := lower_strip s in
        ret (String.eqb response "y" || String.eqb response "yes")
    | InputEOF | InputInterrupt => print MsgOperationCancelled ;;; ret false
    end.

Section WithEnvironment.

Variable fault : Op -> option Failure.
Variable size_of : Content -> Z.
Variable stamp : string.
Variable now_iso : string.
Variable cwd : string.
Variable dumps_len : Index -> Z.
Variable user : Input.
(** What [build_index('.')] returns or raises; it reads the project tree
    and writes nothing. *)
Variable build_outcome : result (Index * Z).

(** The rollback of [safe_save_index]: [backup_path and
    backup_path.exists()], then the copy.  A [BackupInfo] object is true
    and has no [exists] attribute. *)
Definition rollback (output_path : string) (backup_path : BackupArg) : M unit :=
  match backup_path with
  | BNone => ret tt
  | BPath p =>
      present <- path_exists p ;;
      if present then
        try_except (copy2 fault p output_path ;;; print MsgRestored)
                   (fun restore_error => print (MsgRollbackFailed restore_error))
      else ret tt
  | BInfo _ =>
      raise (mkExn AttributeError
                   "'BackupInfo' object has no attribute 'exists'")
  end.

Definition safe_save_index (index : Index) (output_path : string)
    (backup_path : BackupArg) : M bool :=
  try_except
    (let temp_path := with_suffix ".json.tmp" output_path in
     write_file fault temp_path (CIndex index) ;;;
     replace fault temp_path output_path ;;;
     print (MsgSaved output_path) ;;;
     ret true)
    (fun e =>
       print (MsgSaveFailed e) ;;;
       rollback output_path backup_path ;;;
       ret false).

(** The save failed: writing the temporary file or the replace raised. *)
Definition save_fails (out : string) : Prop :=
  is_Some (fault (OpWrite (with_suffix ".json.tmp" out))) \/
  is_Some (fault (OpReplace (with_suffix ".json.tmp" out) out)).

Definition completed_entry (backup_data : BackupEntry)
    (change_data : option ChangeData) (success : bool) : BackupEntry :=
  let old_s := change_data ≫= old_stats in
  let new_s := change_data ≫= new_stats in
  let fc := change_data ≫= file_changes in
  let len (f : FileChanges -> list string) :=
    match fc with Some c => length (f c) | None => O end in
  mkEntry (timestamp backup_data) (backup_filename backup_data)
          (backup_size_bytes backup_data)
          old_s new_s
          (Some (mkChanges (len files_added) (len files_removed)
                           (len files_modified)
                           (stat_of total_directories new_s
                            - stat_of total_directories old_s)))
          fc
          (match change_data with
           | Some cd => significance_level cd
           | None => "unknown"
           end)
          (match change_data with Some cd => notes cd | None => NoteEmpty end,
           negb success)
          (Some success).


Definition complete_backup_log (backup_info : BackupArg)
    (change_data : option ChangeData) (success : bool) : M unit :=
  match backup_info with
  | BInfo b =>
      try_except
        (let backup_data := completed_entry (_backup_info b) change_data success in
         log_data <- log_backup_creation (_log_data b) backup_data ;;
         save_backup_log fault (_backup_dir b) log_data)
        (fun e => print (MsgCouldNotCompleteLog e))
  | _ => ret tt
  end.

(** The [except Exception as e] of [main], with the values [backup_path]
    and [change_data] hold when the exception arrives. *)
Definition on_unexpected (backup_path : BackupArg)
    (change_data : option ChangeData) (e : Exn) : M unit :=
  if is_Exception e then
    print (MsgUnexpected e) ;;;
    complete_backup_log backup_path change_data false
  else raise e.

(** One statement of the outer [try] block and the rest of the block. *)
Definition attempt {A} (backup_path : BackupArg)
    (change_data : option ChangeData) (m : M A) (k : A -> M unit) : M unit :=
  fun w => match m w with
           | (Ok a, w') => k a w'
           | (Raise e, w') => on_unexpected backup_path change_data e w'
           end.

Definition output_path : string := "PROJECT_INDEX.json".

Definition log_path : string := backup_dir_name +:+ "/" +:+ log_file_name.


(** The default action from step 3 on, for a snapshot that was built. *)
Definition update (backup_path : BackupArg) (index : Index) : M unit :=
  attempt backup_path None (analyze_changes fault backup_path index)
    (fun '(significant_changes, change_data) =>
  attempt backup_path (Some change_data) (confirm_update user significant_changes)
    (fun confirmed =>
  if negb confirmed then
    attempt backup_path (Some change_data)
      (print MsgUpdateCancelled ;;;
       complete_backup_log backup_path (Some change_data) false) ret
  else
  attempt backup_path (Some change_data)
    (safe_save_index index output_path backup_path)
    (fun saved =>
  if negb saved then
    attempt backup_path (Some change_data)
      (complete_backup_log backup_path (Some change_data) false) ret
  else
    attempt backup_path (Some change_data)
      (complete_backup_log backup_path (Some change_data) true ;;;
       print MsgSummary) ret))).

(** Step 2: the snapshot after the size governor; [None] when the governor
    does not return within [fuel] iterations. *)
Definition built (fuel : nat) : option (result (Index * Z)) :=
  match build_outcome with
  | Raise e => Some (Raise e)
  | Ok (index, skipped_count) =>
      match Governor.compress_index_if_needed dumps_len fuel index with
      | Some index' => Some (Ok (index', skipped_count))
      | None => None
      end
  end.

(** The default action of [main]. *)
Definition main (max_backups : nat) (fuel : nat) (w : World.t) :
    option (result unit * World.t) :=
  match built fuel with
  | None => None
  | Some outcome =>
      Some (attempt BNone None (create_backup fault size_of stamp now_iso cwd
                                              output_path max_backups)
              (fun backup_path =>
                 match outcome with
                 | Raise e =>
                     if is_Exception e then
                       attempt backup_path None
                         (print (MsgBuildFailed e) ;;;
                          complete_backup_log backup_path None false) ret
                     else raise e
                 | Ok (index, _) => update backup_path index
                 end) w)
  end.

End WithEnvironment.

End Pipeline.

(** ** The analyzer's thresholds as the specification words them *)

Module SpecWords.
Import Records World Backup Analyzer.



(** "The same result as the no-prior-snapshot case except for the note." *)
Definition same_but_note (a b : bool * ChangeData) : Prop :=
  a.1 = b.1 /\
  old_stats a.2 = old_stats b.2 /\
  new_stats a.2 = new_stats b.2 /\
  file_changes a.2 = file_changes b.2 /\
  significance_level a.2 = significance_level b.2.

End SpecWords.

Module AnalyzerExamples.
Import Records World Backup Analyzer.

Definition listed (lang : string) : FileRecord :=
  mkFile lang false None None None None.

(** [n] file records under distinct paths [x.py], [xx.py], ... *)
Fixpoint some_files (n : nat) (stem : string) : Dict.t FileRecord :=
  match n with
  | O => []
  | S n' => (stem +:+ "x.py", listed "python") :: some_files n' (stem +:+ "x")
  end.

(** A snapshot with [n] files, [p] of them counted as fully parsed, and [d]
    directories. *)
Definition snapshot (n : nat) (p d : Z) : Index :=
  mkIndex "2025-01-01T00:00:00" "." ["."]
          (mkStats (Z.of_nat n) d [("python", p)] [("python", Z.of_nat n - p)] 0)
          (some_files n "") [].

Definition backup_file : string :=
  ".claude-index-backups/PROJECT_INDEX_20250101_000000.json".

Definition pending_entry : BackupEntry :=
  mkEntry "2025-01-01T00:00:00" "PROJECT_INDEX_20250101_000000.json" 0
          None None None None "pending" (NoteBackupCreated, false) None.

Definition empty_log : Content := CLog (mkLog "2025-01-01T00:00:00" "/project" []).

(** The object [create_backup] hands to the rest of [main]. *)
Definition backup_info_object : BackupInfo :=
  mkBackupInfo backup_file pending_entry empty_log ".claude-index-backups".

Definition backup_object : BackupArg := BInfo backup_info_object.

(** A world whose only file is the backup, with the given content. *)
Definition world_with_backup (c : Content) : World.t :=
  mkWorld {[ backup_file := mkFileNode c 0 ]} 1 [].

End AnalyzerExamples.

Module RotationExamples.
Import Records World Backup Pipeline AnalyzerExamples.

(** Two snapshot backups written after the log was last saved. *)
Definition crowded : World.t :=
  mkWorld
    {[ ".claude-index-backups/PROJECT_INDEX_20250101_000000.json"
         := mkFileNode (CIndex (snapshot 1 0 0)) 5;
       ".claude-index-backups/PROJECT_INDEX_20250102_000000.json"
         := mkFileNode (CIndex (snapshot 2 0 0)) 6;
       log_path := mkFileNode empty_log 3;
       "PROJECT_INDEX.json" := mkFileNode (CIndex (snapshot 2 0 0)) 6 ]}
    7 [].

(** The temporary file cannot be written. *)
Definition disk_full (o : Op) : option Failure :=
  match o with
  | OpWrite "PROJECT_INDEX.json.tmp" => Some (mkFailure "No space left on device" None)
  | _ => None
  end.

(** A project that was indexed once: the snapshot is there, no backup yet. *)
Definition indexed_once : World.t :=
  mkWorld {[ "PROJECT_INDEX.json" := mkFileNode (CIndex (snapshot 2 0 0)) 0 ]} 1 [].

(** A project that was never indexed. *)
Definition fresh : World.t := mkWorld ∅ 0 [].

Definition byte_size (c : Content) : Z := 512.

Definition char_size (idx : Index) : Z := 512.

End RotationExamples.

(** ** Vocabulary for further properties of the call graph *)

Module CallGraphWords.
Import CallGraph.

(** Some symbol of the snapshot with bare name [s] lists [c] in its calls. *)
Definition calls_name (fl : Dict.t FileRecord) (s c : string) : Prop :=
  exists d calls, symbol fl s d /\ sym_calls d = Some calls /\ In c calls.

(** The signature text of a record, bare or structured. *)
Definition sym_signature (d : SymbolRecord) : option string :=
  match d with
  | SigStr s => Some s
  | SymDict s _ _ => s
  end.

(** Every reverse edge of the graph comes from a forward edge of [fl]. *)
Definition edges_sound (fl : Dict.t FileRecord)
    (g : gmap string (list string)) : Prop :=
  forall c l s, g !! c = Some l -> In s l -> calls_name fl s c.

End CallGraphWords.

(** ** Vocabulary for further properties of rotation *)

Module RotationWords.
Import Records World Backup.

(** The matching files of a directory with their modification times, in
    listing order: what the sort of [manage_backup_rotation] works on. *)
Definition listing (dir : string) (w : World.t) : list (string * Z) :=
  map (fun e : string * File => (e.1, mtime e.2))
      (List.filter (fun e : string * File => matches_in dir backup_pattern e.1)
                   (map_to_list (fs w))).

(** The paths rotation is to delete, and the ones it is to keep. *)
Definition doomed (dir : string) (max_backups : nat) (w : World.t) :
    list string :=
  map fst (skipn max_backups (sort_newest_first (listing dir w))).

Definition spared (dir : string) (max_backups : nat) (w : World.t) :
    list string :=
  map fst (firstn max_backups (sort_newest_first (listing dir w))).

End RotationWords.

(** ** The command line of [main] *)

Module Cli.

(** The three variables the scan of [sys.argv] sets. *)
Record Options : Type := mkOptions {
  max_backups : Z;
  show_log : bool;
  cleanup_only : bool
}.

Definition defaults : Options := mkOptions 10 false false.

(** What the scan prints. *)
Inductive Notice : Type :=
| NoticeInvalidMaxBackups
| NoticeVersion.

Section WithInt.

(** [int(s)] on a string: [None] stands for [ValueError]. *)
Variable py_int : string -> option Z.

(** The [while i < len(sys.argv)] loop from position [i]: [args] is
    [sys.argv[i:]].  The result is what was printed and the options the
    loop ends with, [None] when [--version] returned from [main]. *)
Fixpoint scan (args : list string) (o : Options) :
    list Notice * option Options :=
  match args with
  | [] => ([], Some o)
  | a :: rest =>
      match String.eqb a "--max-backups", rest with
      | true, v :: rest' =>
          match py_int v with
          | Some n =>
              scan rest' (mkOptions (if n <? 1 then 10 else n)
                                    (show_log o) (cleanup_only o))
          | None =>
              let (notices, r) := scan rest' o in
              (NoticeInvalidMaxBackups :: notices, r)
          end
      | _, _ =>
          if String.eqb a "--show-backup-log" then
            scan rest (mkOptions (max_backups o) true (cleanup_only o))
          else if String.eqb a "--cleanup-backups" then
            scan rest (mkOptions (max_backups o) (show_log o) true)
          else if String.eqb a "--version" then
            ([NoticeVersion], None)
          else scan rest o
      end
  end.

(** The scan starts at [i = 1] with the defaults. *)
Definition parse_args (argv : list string) : list Notice * option Options :=
  scan (tl argv) defaults.

End WithInt.

(** An [int] for examples: decimal digits only. *)
Fixpoint digits (s : string) (acc : Z) : option Z :=
  match s with
  | EmptyString => Some acc
  | String c s' =>
      let n := Z.of_nat (nat_of_ascii c) in
      if (48 <=? n) && (n <=? 57) then digits s' (10 * acc + (n - 48))
      else None
  end.

Definition decimal (s : string) : option Z :=
  match s with
  | EmptyString => None
  | _ => digits s 0
  end.

End Cli.
(** ** Call graph: reverse edges cover every forward edge *)

Module CallGraphFacts.
Import CallGraph CallGraphExamples.

Example build_two_files :
  build_call_graph two_files =
  [ ("a.py", plain [("f", SymDict (Some "def f()") (Some ["g"; "run"]) None);
                    ("g", SymDict (Some "def g()") None (Some ["f"; "K.stop"]));
                    ("h", SigStr "def h()")] []);
    ("b.py", plain [("g", SymDict (Some "def g(x)") None (Some ["f"; "K.stop"]))]
                   [("K", mkClass (Some [("run", SymDict (Some "def run(self)") None (Some ["f"]));
                                         ("stop", SymDict None (Some ["g"]) None)]))]) ].
Proof. vm_compute. reflexivity. Qed.

Section Folding.
Context {S E : Type} (f : S -> E -> S) (P : S -> Prop).
Hypothesis step_keeps : forall s e, P s -> P (f s e).

Lemma fold_left_keeps l s : P s -> P (fold_left f l s).
Proof. revert s. induction l as [|e l IH]; simpl; auto. Qed.

Lemma fold_left_reaches l s x :
  In x l -> (forall s', P (f s' x)) -> P (fold_left f l s).
Proof.
  revert s. induction l as [|e l IH]; simpl; intros s [].
  - subst e. intros Hx. apply fold_left_keeps, Hx.
  - intros Hx. now apply IH.
Qed.

End Folding.

Lemma add_caller_keeps c s caller g called :
  has_edge c s g -> has_edge c s (add_caller caller g called).
Proof.
  intros (l & Hl & Hin). unfold add_caller, has_edge.
  destruct (decide (called = c)) as [->|Hne].
  - rewrite lookup_insert_eq, Hl. simpl. eexists; split; [reflexivity|].
    apply in_or_app; now left.
  - rewrite lookup_insert_ne by done. eauto.
Qed.

Lemma add_caller_adds c s g : has_edge c s (add_caller s g c).
Proof.
  unfold add_caller, has_edge. rewrite lookup_insert_eq.
  eexists; split; [reflexivity|]. apply in_or_app; right; now left.
Qed.

Lemma register_keeps c s full caller calls g :
  edge_in c s g -> edge_in c s (register full caller calls g).
Proof.
  unfold edge_in, register; simpl.
  apply fold_left_keeps. intros; now apply add_caller_keeps.
Qed.

Lemma register_adds c s full calls g :
  In c calls -> edge_in c s (register full s calls g).
Proof.
  unfold edge_in, register; simpl. intros Hin.
  apply fold_left_reaches with (x := c); auto.
  - intros; now apply add_caller_keeps.
  - intros; apply add_caller_adds.
Qed.

Lemma collect_symbol_keeps c s full caller d g :
  edge_in c s g -> edge_in c s (collect_symbol full caller d g).
Proof.
  unfold collect_symbol. destruct (sym_calls d); auto using register_keeps.
Qed.

Lemma collect_symbol_adds c s full d calls g :
  sym_calls d = Some calls -> In c calls ->
  edge_in c s (collect_symbol full s d g).
Proof.
  unfold collect_symbol. intros -> Hin. now apply register_adds.
Qed.

Lemma collect_class_keeps c s path g e :
  edge_in c s g -> edge_in c s (collect_class path g e).
Proof.
  unfold collect_class. destruct (methods e.2); auto.
  apply fold_left_keeps. intros; now apply collect_symbol_keeps.
Qed.

Lemma collect_file_keeps c s g e :
  edge_in c s g -> edge_in c s (collect_file g e).
Proof.
  intros H. unfold collect_file.
  assert (H1 : edge_in c s
            match functions e.2 with
            | Some fs => fold_left (collect_function e.1) fs g
            | None => g
            end).
  { destruct (functions e.2); auto.
    apply fold_left_keeps; auto. intros; now apply collect_symbol_keeps. }
  destruct (classes e.2); auto.
  apply fold_left_keeps; auto. intros; now apply collect_class_keeps.
Qed.

(** Pass 1 records the bare name of every symbol under each of its callees. *)
Lemma collect_records fl s d calls c :
  symbol fl s d -> sym_calls d = Some calls -> In c calls ->
  edge_in c s (collect fl).
Proof.
  intros Hs Hc Hin. unfold collect.
  destruct Hs as [path fr fs name d Hf Hfs Hd
                 |path fr cs cn cr ms name d Hf Hcs Hcr Hms Hd].
  - apply fold_left_reaches with (x := (path, fr)); auto using collect_file_keeps.
    intros g. unfold collect_file; simpl. rewrite Hfs.
    assert (edge_in c name (fold_left (collect_function path) fs g)).
    { apply fold_left_reaches with (x := (name, d)); auto.
      - intros; now apply collect_symbol_keeps.
      - intros g'. unfold collect_function; simpl.
        eapply collect_symbol_adds; eauto. }
    destruct (classes fr); auto.
    apply fold_left_keeps; auto. intros; now apply collect_class_keeps.
  - apply fold_left_reaches with (x := (path, fr)); auto using collect_file_keeps.
    intros g. unfold collect_file; simpl. rewrite Hcs.
    apply fold_left_reaches with (x := (cn, cr)).
    + intros; now apply collect_class_keeps.
    + assumption.
    + intros g'. unfold collect_class; simpl. rewrite Hms.
      apply fold_left_reaches with (x := (name, d)); auto.
      * intros; now apply collect_symbol_keeps.
      * intros g''. unfold collect_method; simpl.
        eapply collect_symbol_adds; eauto.
Qed.

Lemma attach_calls callers d calls :
  sym_calls (attach callers d) = Some calls -> sym_calls d = Some calls.
Proof. destruct d; simpl; auto; discriminate. Qed.

Lemma attach_called_by callers d : sym_called_by (attach callers d) = Some callers.
Proof. now destruct d. Qed.

Lemma merge_function_calls cbg e calls :
  sym_calls (merge_function cbg e).2 = Some calls -> sym_calls e.2 = Some calls.
Proof.
  unfold merge_function. destruct (cbg !! e.1); simpl; auto.
  apply attach_calls.
Qed.

Lemma merge_function_name cbg e : (merge_function cbg e).1 = e.1.
Proof. unfold merge_function. now destruct (cbg !! e.1). Qed.

Lemma merge_method_calls cbg cn e calls :
  sym_calls (merge_method cbg cn e).2 = Some calls -> sym_calls e.2 = Some calls.
Proof.
  unfold merge_method.
  destruct (_ || _); auto.
  destruct (_ ++ _)%list; simpl; auto.
  apply attach_calls.
Qed.

Lemma merge_method_name cbg cn e : (merge_method cbg cn e).1 = e.1.
Proof.
  unfold merge_method. destruct (_ || _); auto. now destruct (_ ++ _)%list.
Qed.

Lemma merge_class_name cbg e : (merge_class cbg e).1 = e.1.
Proof. unfold merge_class. now destruct (methods e.2). Qed.

(** Every entry of the merged snapshot comes from an entry of the input. *)
Lemma merged_function_origin cbg fl path fr fs name d :
  In (path, fr) (merge_back cbg fl) -> functions fr = Some fs ->
  In (name, d) fs ->
  exists fr0 fs0 d0,
    In (path, fr0) fl /\ functions fr0 = Some fs0 /\ In (name, d0) fs0 /\
    (name, d) = merge_function cbg (name, d0).
Proof.
  unfold merge_back. intros Hf Hfs Hd.
  apply in_map_iff in Hf as ([p fr0] & Heq & Hf). unfold merge_file in Heq.
  simpl in Heq. inversion Heq; subst; clear Heq. simpl in Hfs.
  destruct (functions fr0) as [fs0|] eqn:E; simpl in Hfs; [|discriminate].
  inversion Hfs; subst; clear Hfs.
  apply in_map_iff in Hd as ([n d0] & Heq & Hd).
  pose proof (merge_function_name cbg (n, d0)) as Hn. rewrite Heq in Hn.
  simpl in Hn. subst n.
  exists fr0, fs0, d0. repeat split; auto.
Qed.

Lemma merged_method_origin cbg fl path fr cs cn cr ms name d :
  In (path, fr) (merge_back cbg fl) -> classes fr = Some cs ->
  In (cn, cr) cs -> methods cr = Some ms -> In (name, d) ms ->
  exists fr0 cs0 cr0 ms0 d0,
    In (path, fr0) fl /\ classes fr0 = Some cs0 /\ In (cn, cr0) cs0 /\
    methods cr0 = Some ms0 /\ In (name, d0) ms0 /\
    (name, d) = merge_method cbg cn (name, d0).
Proof.
  unfold merge_back. intros Hf Hcs Hcr Hms Hd.
  apply in_map_iff in Hf as ([p fr0] & Heq & Hf). unfold merge_file in Heq.
  simpl in Heq. inversion Heq; subst; clear Heq. simpl in Hcs.
  destruct (classes fr0) as [cs0|] eqn:E; simpl in Hcs; [|discriminate].
  inversion Hcs; subst; clear Hcs.
  apply in_map_iff in Hcr as ([n cr0] & Heq & Hcr).
  pose proof (merge_class_name cbg (n, cr0)) as Hn. rewrite Heq in Hn.
  simpl in Hn. subst n.
  unfold merge_class in Heq. simpl in Heq.
  destruct (methods cr0) as [ms0|] eqn:E0.
  - inversion Heq; subst; clear Heq. simpl in Hms.
    inversion Hms; subst; clear Hms.
    apply in_map_iff in Hd as ([n d0] & Heq & Hd).
    pose proof (merge_method_name cbg cn (n, d0)) as Hn. rewrite Heq in Hn.
    simpl in Hn. subst n.
    exists fr0, cs0, cr0, ms0, d0. repeat split; auto.
  - inversion Heq; subst. congruence.
Qed.

Lemma in_list_set s l : In s l -> In s (list_set l).
Proof.
  intros H. unfold list_set. apply list_elem_of_In, elem_of_elements.
  apply elem_of_list_to_set. now apply list_elem_of_In.
Qed.

Lemma merge_function_attaches cbg e s :
  has_edge e.1 s cbg ->
  exists cb, sym_called_by (merge_function cbg e).2 = Some cb /\ In s cb.
Proof.
  intros (l & Hl & Hin). unfold merge_function. rewrite Hl. simpl.
  rewrite attach_called_by. eauto.
Qed.

Lemma merge_method_attaches cbg cn e s :
  has_edge e.1 s cbg \/ has_edge (qualified cn e.1) s cbg ->
  exists cb, sym_called_by (merge_method cbg cn e).2 = Some cb /\ In s cb.
Proof.
  intros H. unfold merge_method.
  assert (Hc : In s (default [] (cbg !! e.1) ++
                     default [] (cbg !! qualified cn e.1))%list).
  { apply in_or_app. destruct H as [(l & -> & Hin)|(l & -> & Hin)]; auto. }
  assert (Hb : bool_decide (is_Some (cbg !! e.1))
               || bool_decide (is_Some (cbg !! qualified cn e.1)) = true).
  { apply orb_true_iff.
    destruct H as [(l & Hl & _)|(l & Hl & _)]; [left|right];
      apply bool_decide_eq_true; rewrite Hl; eauto. }
  rewrite Hb.
  destruct (_ ++ _)%list as [|x xs] eqn:E; [destruct Hc|].
  simpl. rewrite attach_called_by. eexists; split; [reflexivity|].
  now apply in_list_set.
Qed.

(** Pass 2 hands every recorded reverse edge to every symbol of that name. *)
Lemma merge_back_delivers cbg fl c s dt :
  named (merge_back cbg fl) c dt -> has_edge c s cbg ->
  exists cb, sym_called_by dt = Some cb /\ In s cb.
Proof.
  intros Hn He.
  destruct Hn as [path fr fs name d Hf Hfs Hd
                 |path fr cs cn cr ms name d Hf Hcs Hcr Hms Hd
                 |path fr cs cn cr ms name d Hf Hcs Hcr Hms Hd].
  - destruct (merged_function_origin _ _ _ _ _ _ _ Hf Hfs Hd)
      as (fr0 & fs0 & d0 & _ & _ & _ & Heq).
    replace d with (merge_function cbg (name, d0)).2 by now rewrite <- Heq.
    now apply merge_function_attaches.
  - destruct (merged_method_origin _ _ _ _ _ _ _ _ _ _ Hf Hcs Hcr Hms Hd)
      as (fr0 & cs0 & cr0 & ms0 & d0 & _ & _ & _ & _ & _ & Heq).
    replace d with (merge_method cbg cn (name, d0)).2 by now rewrite <- Heq.
    apply merge_method_attaches. now left.
  - destruct (merged_method_origin _ _ _ _ _ _ _ _ _ _ Hf Hcs Hcr Hms Hd)
      as (fr0 & cs0 & cr0 & ms0 & d0 & _ & _ & _ & _ & _ & Heq).
    replace d with (merge_method cbg cn (name, d0)).2 by now rewrite <- Heq.
    apply merge_method_attaches. now right.
Qed.

(** A symbol of the merged snapshot with a [calls] list had that list, under
    the same bare name, before the merge. *)
Lemma merge_back_calls cbg fl s d calls :
  symbol (merge_back cbg fl) s d -> sym_calls d = Some calls ->
  exists d0, symbol fl s d0 /\ sym_calls d0 = Some calls.
Proof.
  intros Hs Hc.
  destruct Hs as [path fr fs name d Hf Hfs Hd
                 |path fr cs cn cr ms name d Hf Hcs Hcr Hms Hd].
  - destruct (merged_function_origin _ _ _ _ _ _ _ Hf Hfs Hd)
      as (fr0 & fs0 & d0 & H1 & H2 & H3 & Heq).
    exists d0. split; [eapply symbol_function; eauto|].
    apply (merge_function_calls cbg (name, d0)). now rewrite <- Heq.
  - destruct (merged_method_origin _ _ _ _ _ _ _ _ _ _ Hf Hcs Hcr Hms Hd)
      as (fr0 & cs0 & cr0 & ms0 & d0 & H1 & H2 & H3 & H4 & H5 & Heq).
    exists d0. split; [eapply symbol_method; eauto|].
    apply (merge_method_calls cbg cn (name, d0)). now rewrite <- Heq.
Qed.

(** C3. After the call-graph build, whenever a name [c] is in the [calls]
    list of a symbol [s] (a function, or a method under [Class.method]), the
    bare name of [s] is in the [called_by] list of every symbol named [c]
    (a function of that name, or a method whose bare or qualified name it
    is) in any file of the snapshot. *)
Theorem call_graph_symmetry fl s d calls c dt :
  symbol (build_call_graph fl) s d ->
  sym_calls d = Some calls -> In c calls ->
  named (build_call_graph fl) c dt ->
  exists cb, sym_called_by dt = Some cb /\ In s cb.
Proof.
  unfold build_call_graph. intros Hs Hc Hin Hn.
  destruct (merge_back_calls _ _ _ _ _ Hs Hc) as (d0 & Hs0 & Hc0).
  eapply merge_back_delivers; [exact Hn|].
  eapply collect_records; eauto.
Qed.

Lemma call_graph_symmetry_witness :
  exists cb,
    sym_called_by (SymDict (Some "def g(x)") None (Some ["f"; "K.stop"]))
      = Some cb /\ In "f" cb.
Proof.
  apply (call_graph_symmetry two_files "f"
           (SymDict (Some "def f()") (Some ["g"; "run"]) None)
           ["g"; "run"] "g").
  - eapply symbol_function with (path := "a.py");
      [vm_compute; left; reflexivity | reflexivity | simpl; auto].
  - reflexivity.
  - simpl; auto.
  - eapply named_function with (path := "b.py");
      [vm_compute; right; left; reflexivity | reflexivity | simpl; auto].
Defined.




End CallGraphFacts.

(** ** Dependency resolution *)

Module ResolverFacts.
Import Resolver ResolverExamples.

Example parse_parent : PurePath.to_str (PurePath.parent (PurePath.parse "a/b.py")) = "a".
Proof. reflexivity. Qed.

Example parent_of_top_level : PurePath.to_str (PurePath.parent (PurePath.parse "b.py")) = ".".
Proof. reflexivity. Qed.

Example join_from_dot :
  PurePath.to_str (PurePath.joinpath (PurePath.parent (PurePath.parse "b.py")) "c") = "c".
Proof. reflexivity. Qed.

Example split_empty : Py.split Py.slash "" = [""].
Proof. reflexivity. Qed.

Example split_up : Py.split Py.slash "../../y/z" = [".."; ".."; "y"; "z"].
Proof. reflexivity. Qed.

Example same_dir_graph :
  build_dependency_graph same_dir = [("a/b.py", ["a/c.py"])].
Proof. reflexivity. Qed.

Example parent_dir_graph :
  build_dependency_graph parent_dir = [("a/b/x.py", ["a/y.py"; "os"])].
Proof. reflexivity. Qed.

Lemma get_set_eq {V} k (v : V) d : Dict.get k (Dict.set k v d) = Some v.
Proof.
  induction d as [|[k' v'] d IH]; simpl.
  - now rewrite String.eqb_refl.
  - destruct (String.eqb k k') eqn:E; simpl; rewrite ?String.eqb_refl, ?E; auto.
Qed.

Lemma get_set_ne {V} k k' (v : V) d :
  k <> k' -> Dict.get k (Dict.set k' v d) = Dict.get k d.
Proof.
  intros Hne. induction d as [|[k0 v0] d IH]; simpl.
  - apply String.eqb_neq in Hne. now rewrite Hne.
  - destruct (String.eqb k' k0) eqn:E; simpl.
    + apply String.eqb_eq in E. subst k0.
      apply String.eqb_neq in Hne. now rewrite Hne.
    + now rewrite IH.
Qed.

Lemma resolve_file_other fl0 g e k :
  k <> e.1 -> Dict.get k (resolve_file fl0 g e) = Dict.get k g.
Proof.
  intros Hne. unfold resolve_file.
  destruct (imports e.2) as [[|i imps]|]; auto.
  destruct (dependencies_of fl0 e.1 (i :: imps)); auto.
  now apply get_set_ne.
Qed.

Lemma fold_resolve_other fl0 l g k :
  ~ In k (Dict.keys l) ->
  Dict.get k (fold_left (resolve_file fl0) l g) = Dict.get k g.
Proof.
  revert g. induction l as [|e l IH]; simpl; intros g Hk; auto.
  rewrite IH by tauto. apply resolve_file_other. intros ->. tauto.
Qed.

Lemma fold_resolve_here fl0 l g k fr imps d deps :
  NoDup (Dict.keys l) -> In (k, fr) l -> imports fr = Some imps ->
  dependencies_of fl0 k imps = d :: deps ->
  Dict.get k (fold_left (resolve_file fl0) l g) = Some (d :: deps).
Proof.
  revert g. induction l as [|e l IH]; simpl; intros g Hnd Hin Hi Hd; [easy|].
  inversion Hnd as [|? ? Hnotin Hnd']; subst.
  rewrite list_elem_of_In in Hnotin.
  destruct Hin as [->|Hin].
  - rewrite fold_resolve_other by exact Hnotin.
    unfold resolve_file; simpl. rewrite Hi.
    destruct imps as [|i imps]; [discriminate Hd|].
    rewrite Hd. apply get_set_eq.
  - now apply IH.
Qed.

Lemma first_match_head {V} (fl : Dict.t V) resolved ext exts :
  Dict.mem (resolved +:+ ext) fl = true ->
  first_match fl resolved (ext :: exts)
  = Some (Py.replace_backslash (resolved +:+ ext)).
Proof. simpl. now intros ->. Qed.

(** An import that resolves lands in the file's dependency list. *)
Lemma import_lands fl k fr imps imp target :
  NoDup (Dict.keys fl) -> In (k, fr) fl -> imports fr = Some imps ->
  In imp imps ->
  resolve_import fl (PurePath.parent (PurePath.parse k)) imp = [target] ->
  exists deps,
    Dict.get k (build_dependency_graph fl) = Some deps /\ In target deps.
Proof.
  intros Hnd Hin Hi Himp Hres.
  assert (Ht : In target (dependencies_of fl k imps)).
  { unfold dependencies_of. apply in_flat_map. exists imp. split; auto.
    rewrite Hres. now left. }
  destruct (dependencies_of fl k imps) as [|d deps] eqn:E; [destruct Ht|].
  exists (d :: deps). split; auto.
  unfold build_dependency_graph. eapply fold_resolve_here; eauto.
Qed.

(** The extension loop returns the first extension of the list that makes
    the base path a key, and nothing when none does. *)
Lemma first_match_first {V} (fl : Dict.t V) resolved exts target :
  first_match fl resolved exts = Some target ->
  exists pre ext post,
    exts = (pre ++ ext :: post)%list /\
    target = Py.replace_backslash (resolved +:+ ext) /\
    (Dict.mem (resolved +:+ ext) fl
     || Dict.mem (Py.replace_backslash (resolved +:+ ext)) fl = true) /\
    forall e, In e pre ->
      Dict.mem (resolved +:+ e) fl
      || Dict.mem (Py.replace_backslash (resolved +:+ e)) fl = false.
Proof.
  induction exts as [|ext exts IH]; simpl; [discriminate|].
  destruct (_ || _) eqn:E.
  - intros [= <-]. exists [], ext, exts. repeat split; auto. intros e [].
  - intros H. destruct (IH H) as (pre & ext' & post & -> & Ht & Hm & Hpre).
    exists (ext :: pre), ext', post. repeat split; auto.
    intros e [<-|He]; auto.
Qed.

(** C7 as stated fails: the recorded target is the key that matched, with
    its extension, so [a/b.py] importing [./c] records [a/c.py], not [a/c]. *)
Lemma same_dir_records_matched_key :
  Dict.get "a/b.py" same_dir = Some (src ["./c"]) /\
  Dict.mem "a/c.py" same_dir = true /\
  ~ exists deps,
      Dict.get "a/b.py" (build_dependency_graph same_dir) = Some deps /\
      In "a/c" deps.
Proof.
  split; [reflexivity|]. split; [reflexivity|].
  intros (deps & Hd & Hin). vm_compute in Hd. inversion Hd; subst.
  destruct Hin as [H|[]]. discriminate H.
Qed.

(** C7, amended. In every file mapping that has [a/b.py] importing [./c]
    and has [a/c.py], the dependency list recorded for [a/b.py] includes
    [a/c.py]; in every mapping that has [a/b/x.py] importing [../y] and has
    [a/y.py], the list recorded for [a/b/x.py] includes [a/y.py].  The
    resolved base path is tried against [.py], [.js], [.ts], [.jsx], [.tsx]
    and the empty extension in this order, and the first one that makes it a
    key of the mapping is the one recorded. *)
Theorem relative_imports_resolve (fl : Dict.t FileRecord) :
  NoDup (Dict.keys fl) ->
  (forall fr imps,
     In ("a/b.py", fr) fl -> imports fr = Some imps -> In "./c" imps ->
     Dict.mem "a/c.py" fl = true ->
     exists deps, Dict.get "a/b.py" (build_dependency_graph fl) = Some deps /\
                  In "a/c.py" deps) /\
  (forall fr imps,
     In ("a/b/x.py", fr) fl -> imports fr = Some imps -> In "../y" imps ->
     Dict.mem "a/y.py" fl = true ->
     exists deps, Dict.get "a/b/x.py" (build_dependency_graph fl) = Some deps /\
                  In "a/y.py" deps) /\
  (forall file_dir imp target,
     Py.startswith "." imp = true ->
     resolve_import fl file_dir imp = [target] ->
     exists pre ext post,
       [".py"; ".js"; ".ts"; ".jsx"; ".tsx"; ""] = (pre ++ ext :: post)%list /\
       target = Py.replace_backslash (resolve_base file_dir imp +:+ ext) /\
       (Dict.mem (resolve_base file_dir imp +:+ ext) fl
        || Dict.mem (Py.replace_backslash (resolve_base file_dir imp +:+ ext)) fl
        = true) /\
       forall e, In e pre ->
         Dict.mem (resolve_base file_dir imp +:+ e) fl
         || Dict.mem (Py.replace_backslash (resolve_base file_dir imp +:+ e)) fl
         = false).
Proof.
  intros Hnd. split; [|split].
  - intros fr imps Hin Hi Himp Hmem.
    eapply import_lands; eauto.
    unfold resolve_import.
    change (Py.startswith "." "./c") with true. cbv iota.
    change (resolve_base (PurePath.parent (PurePath.parse "a/b.py")) "./c")
      with "a/c".
    unfold known_extensions. rewrite first_match_head by exact Hmem.
    reflexivity.
  - intros fr imps Hin Hi Himp Hmem.
    eapply import_lands; eauto.
    unfold resolve_import.
    change (Py.startswith "." "../y") with true. cbv iota.
    change (resolve_base (PurePath.parent (PurePath.parse "a/b/x.py")) "../y")
      with "a/y".
    unfold known_extensions. rewrite first_match_head by exact Hmem.
    reflexivity.
  - intros file_dir imp target Hrel. unfold resolve_import. rewrite Hrel.
    destruct (first_match fl _ known_extensions) as [t|] eqn:E; [|discriminate].
    intros [= <-]. now apply first_match_first in E.
Qed.

Lemma relative_imports_resolve_witness :
  (exists deps,
     Dict.get "a/b.py" (build_dependency_graph both_dirs) = Some deps /\
     In "a/c.py" deps) /\
  (exists deps,
     Dict.get "a/b/x.py" (build_dependency_graph both_dirs) = Some deps /\
     In "a/y.py" deps).
Proof.
  assert (Hnd : NoDup (Dict.keys both_dirs)).
  { apply (bool_decide_unpack _). vm_compute. reflexivity. }
  destruct (relative_imports_resolve both_dirs Hnd) as (H1 & H2 & _).
  split.
  - apply (H1 (src ["./c"]) ["./c"]);
      [simpl; auto | reflexivity | simpl; auto | reflexivity].
  - apply (H2 (src ["../y"; "os"]) ["../y"; "os"]);
      [simpl; auto | reflexivity | simpl; auto | reflexivity].
Defined.

End ResolverFacts.

(** ** Indexing counters and the size governor *)

Module IndexingFacts.
Import Indexing Governor IndexingExamples.

Lemma get_bump k d : Dict.get k (bump k d) = Some (default 0 (Dict.get k d) + 1).
Proof.
  unfold bump. generalize (default 0 (Dict.get k d) + 1). intros v.
  induction d as [|[k' v'] d IH]; simpl.
  - now rewrite String.eqb_refl.
  - destruct (String.eqb k k') eqn:E; simpl; rewrite ?String.eqb_refl, ?E; auto.
Qed.

Lemma total_set k v d :
  total (Dict.set k v d) = total d - default 0 (Dict.get k d) + v.
Proof.
  unfold total. induction d as [|[k' v'] d IH]; simpl.
  - lia.
  - destruct (String.eqb k k') eqn:E; simpl.
    + lia.
    + rewrite IH. lia.
Qed.

Lemma total_bump k d : total (bump k d) = total d + 1.
Proof. unfold bump. rewrite total_set. lia. Qed.

(** C10. A file with a parseable suffix whose extraction returns no function
    and no class gets a record with [parsed = false]; the [fully_parsed]
    counter of its language still goes up by one and [listed_only] is left
    alone, so the [fully_parsed] total grows while no record is marked
    parsed, and the size governor takes the record for a removable one. *)
Theorem empty_extraction_counts_as_parsed
    (PARSEABLE_LANGUAGES : Dict.t string)
    (get_language_name : string -> string)
    (extract_python extract_javascript extract_shell :
       string -> outcome Extracted)
    suffix lang_key file_purpose content imps st path rest :
  Dict.get suffix PARSEABLE_LANGUAGES = Some lang_key ->
  extract extract_python extract_javascript extract_shell suffix content
    = Returned (mkExtracted [] [] imps) ->
  let r := index_code_file PARSEABLE_LANGUAGES get_language_name
             extract_python extract_javascript extract_shell
             suffix file_purpose (Returned content) st in
  parsed r.1 = false /\
  functions r.1 = None /\ classes r.1 = None /\
  Dict.get lang_key (fully_parsed r.2)
    = Some (default 0 (Dict.get lang_key (fully_parsed st)) + 1) /\
  total (fully_parsed r.2) = total (fully_parsed st) + 1 /\
  listed_only r.2 = listed_only st /\
  remove_first_unparsed ((path, r.1) :: rest) = rest.
Proof.
  intros Hk He r. subst r. unfold index_code_file. rewrite Hk, He. simpl.
  repeat split; auto using get_bump, total_bump.
Qed.

Lemma empty_extraction_counts_as_parsed_witness :
  let r := index_code_file parseable language_name
             finds_nothing finds_nothing finds_nothing
             ".py" None (Returned "") GovernorExamples.empty_stats in
  parsed r.1 = false /\
  functions r.1 = None /\ classes r.1 = None /\
  Dict.get "python" (fully_parsed r.2) = Some (default 0 None + 1) /\
  total (fully_parsed r.2) = 0 + 1 /\
  listed_only r.2 = [] /\
  Governor.remove_first_unparsed [("__init__.py", r.1)] = [].
Proof.
  apply (empty_extraction_counts_as_parsed
           parseable language_name finds_nothing finds_nothing finds_nothing
           ".py" "python" None "" (Some []) GovernorExamples.empty_stats
           "__init__.py" []); reflexivity.
Defined.

End IndexingFacts.


Module GovernorFacts.
Import Governor GovernorExamples.

Lemma remove_keeps_parsed fl :
  parsed_only (remove_first_unparsed fl) = parsed_only fl.
Proof.
  induction fl as [|[p info] fl IH]; simpl; auto.
  destruct (parsed info) eqn:E; simpl; rewrite ?E; auto. now rewrite IH.
Qed.

Lemma remove_nothing fl : unparsed_count fl = O -> remove_first_unparsed fl = fl.
Proof.
  unfold unparsed_count.
  induction fl as [|[p info] fl IH]; simpl; auto.
  destruct (parsed info); simpl; [|discriminate].
  intros H. now rewrite IH.
Qed.

Lemma remove_one fl n :
  unparsed_count fl = S n -> unparsed_count (remove_first_unparsed fl) = n.
Proof.
  unfold unparsed_count.
  induction fl as [|[p info] fl IH]; simpl; [discriminate|].
  destruct (parsed info) eqn:E; simpl; rewrite ?E; simpl; auto.
Qed.

Lemma with_files_same idx : with_files idx (files idx) = idx.
Proof. now destruct idx. Qed.

Section Divergence.

Variable dumps_len : Index -> Z.

(** Deleting a record never makes the serialization longer. *)
Hypothesis delete_shrinks : forall idx,
  dumps_len (with_files idx (remove_first_unparsed (files idx)))
  <= dumps_len idx.

Lemma parsed_only_le idx :
  dumps_len (with_files idx (parsed_only (files idx))) <= dumps_len idx.
Proof.
  remember (unparsed_count (files idx)) as n eqn:Hn.
  revert idx Hn. induction n as [|n IH]; intros idx Hn.
  - symmetry in Hn. apply remove_nothing in Hn.
    pose proof (remove_keeps_parsed (files idx)) as Hp. rewrite Hn in Hp.
    assert (Hall : parsed_only (files idx) = files idx).
    { clear -Hn. unfold parsed_only.
      induction (files idx) as [|[p info] fl IH]; simpl in *; auto.
      destruct (parsed info) eqn:E; simpl in *.
      - injection Hn as Hn. now rewrite IH.
      - exfalso. clear -Hn.
        assert (Hlen : length fl = length ((p, info) :: fl)) by now rewrite Hn at 1.
        simpl in Hlen. lia. }
    rewrite Hall, with_files_same. lia.
  - set (idx' := with_files idx (remove_first_unparsed (files idx))).
    assert (Hn' : n = unparsed_count (files idx')).
    { simpl. symmetry. now apply remove_one. }
    specialize (IH idx' Hn'). simpl in IH.
    rewrite remove_keeps_parsed in IH.
    pose proof (delete_shrinks idx). fold idx' in H.
    replace (with_files idx' (parsed_only (files idx)))
      with (with_files idx (parsed_only (files idx))) in IH
      by now destruct idx.
    lia.
Qed.

Lemma loop_spins n : forall idx,
  unparsed_count (files idx) = n ->
  MAX_INDEX_SIZE < dumps_len (with_files idx (parsed_only (files idx))) ->
  parsed_only (files idx) <> [] ->
  forall fuel, compress_loop dumps_len fuel idx = None.
Proof.
  induction n as [|n IH]; intros idx Hn Hbig Hsome fuel.
  - assert (Hover : over_budget dumps_len idx = true).
    { unfold over_budget. apply andb_true_iff. split.
      - apply Z.ltb_lt. pose proof (parsed_only_le idx). lia.
      - destruct (files idx); [now destruct Hsome|reflexivity]. }
    induction fuel as [|fuel IHf]; simpl; auto.
    rewrite Hover, (remove_nothing _ Hn), with_files_same. exact IHf.
  - destruct fuel as [|fuel]; simpl; auto.
    assert (Hover : over_budget dumps_len idx = true).
    { unfold over_budget. apply andb_true_iff. split.
      - apply Z.ltb_lt. pose proof (parsed_only_le idx). lia.
      - destruct (files idx); [now destruct Hsome|reflexivity]. }
    rewrite Hover. apply IH; simpl.
    + now apply remove_one.
    + rewrite remove_keeps_parsed.
      replace (with_files (with_files idx (remove_first_unparsed (files idx)))
                          (parsed_only (files idx)))
        with (with_files idx (parsed_only (files idx))) by now destruct idx.
      exact Hbig.
    + now rewrite remove_keeps_parsed.
Qed.

End Divergence.

Lemma files_truncate_tree idx : files (truncate_tree idx) = files idx.
Proof. unfold truncate_tree. now destruct (_ <? _)%nat. Qed.

(** C2, what the code does.  When the snapshot is over budget, stays over
    budget after tree truncation with every unparsed record removed, and
    has a fully parsed record, the loop of the governor keeps its condition
    true without changing the snapshot: no bound on the number of iterations
    lets [compress_index_if_needed] return. *)
Theorem governor_never_returns (dumps_len : Index -> Z) idx :
  (forall i, dumps_len (with_files i (remove_first_unparsed (files i)))
             <= dumps_len i) ->
  MAX_INDEX_SIZE < dumps_len idx ->
  MAX_INDEX_SIZE < dumps_len (stripped idx) ->
  (exists e, In e (files idx) /\ parsed e.2 = true) ->
  forall fuel, compress_index_if_needed dumps_len fuel idx = None.
Proof.
  intros Hmono Hbig Hstrip (e & Hin & Hp) fuel.
  unfold compress_index_if_needed.
  destruct (dumps_len idx <=? MAX_INDEX_SIZE) eqn:E;
    [apply Z.leb_le in E; lia|].
  eapply loop_spins; eauto.
  - rewrite files_truncate_tree. exact Hstrip.
  - rewrite files_truncate_tree. intros Hnil.
    assert (Hin' : In e (parsed_only (files idx))).
    { apply filter_In. split; auto. }
    rewrite Hnil in Hin'. destruct Hin'.
Qed.

Lemma sample_len_shrinks idx :
  sample_len (with_files idx (remove_first_unparsed (files idx)))
  <= sample_len idx.
Proof.
  unfold sample_len. simpl.
  assert (length (remove_first_unparsed (files idx)) <= length (files idx))%nat.
  { induction (files idx) as [|[p info] fl IH]; simpl; auto.
    destruct (parsed info); simpl; lia. }
  lia.
Qed.

Lemma governor_never_returns_witness :
  compress_index_if_needed sample_len 1000 heavy = None.
Proof.
  apply (governor_never_returns sample_len heavy).
  - exact sample_len_shrinks.
  - vm_compute. reflexivity.
  - vm_compute. reflexivity.
  - exists ("a.py", parsed_file). split; [simpl; auto | reflexivity].
Defined.

(** Below the bound the loop does what the source says: unparsed records go
    first, one per iteration. *)
Example heavy_loses_listed_record :
  compress_loop sample_len 1 heavy = None /\
  compress_loop (fun idx => MAX_INDEX_SIZE - 1 + Z.of_nat (length (files idx)))
                3 heavy
  = Some (with_files heavy [("a.py", parsed_file)]).
Proof. split; reflexivity. Qed.

End GovernorFacts.

(** ** Change analyzer *)

Module AnalyzerFacts.
Import Records World Backup Analyzer SpecWords AnalyzerExamples.
Local Open Scope world_scope.





Lemma removed_files_spec old new k :
  In k (files_removed (get_file_level_changes (Some old) new))
  <-> In k (Dict.keys old) /\ ~ In k (Dict.keys new).
Proof.
  simpl. rewrite <- !list_elem_of_In, elem_of_elements, elem_of_difference,
    !elem_of_list_to_set. reflexivity.
Qed.




Example eleven_more_files_is_significant :
  exists cd w',
    analyze_changes no_fault backup_object (snapshot 31 15 0)
                    (world_with_backup (CIndex (snapshot 20 10 0)))
    = (Ok (true, cd), w').
Proof. vm_compute. eauto. Qed.

Example ten_more_files_is_routine :
  exists cd w',
    analyze_changes no_fault backup_object (snapshot 30 15 0)
                    (world_with_backup (CIndex (snapshot 20 10 0)))
    = (Ok (false, cd), w') /\ notes cd = NoteRoutine 10 0.
Proof. vm_compute. eauto. Qed.

Example half_to_seven_tenths_is_routine :
  ratio_shifted (py_truediv 5 10) (py_truediv 7 10) = false.
Proof. reflexivity. Qed.

Lemma read_json_raises fault p w e w' :
  read_json fault p w = (Raise e, w') -> is_Exception e = true /\ w' = w.
Proof.
  unfold read_json. destruct (fault (OpRead p)).
  - unfold os_error, raise. intros [= <- <-]. auto.
  - destruct (fs w !! p) as [[[] ?]|]; intros [= <- <-]; auto.
Qed.

(** C6 as stated fails: with an undecodable prior snapshot the record comes
    back without statistics and without file changes, where a first run
    lists every file of the new snapshot as added. *)
Lemma unreadable_is_not_first_run :
  exists unreadable first w1 w2,
    analyze_changes no_fault backup_object (snapshot 2 0 0)
                    (world_with_backup (CRaw "{ truncated"))
    = (Ok unreadable, w1) /\
    analyze_changes no_fault BNone (snapshot 2 0 0)
                    (world_with_backup (CRaw "{ truncated"))
    = (Ok first, w2) /\
    file_changes first.2 = Some (mkFileChanges ["x.py"; "xx.py"] [] []) /\
    file_changes unreadable.2 = None /\
    ~ same_but_note unreadable first.
Proof.
  do 4 eexists. split; [vm_compute; reflexivity|].
  split; [vm_compute; reflexivity|].
  split; [reflexivity|]. split; [reflexivity|].
  intros (_ & _ & H & _). discriminate H.
Qed.

(** C6, amended. When the prior snapshot file exists but cannot be read or
    decoded, the analysis reports "not significant" with a note that records
    the failure, and leaves the old statistics, the new statistics and the
    file changes of its record empty.  Without a prior snapshot file it
    reports "not significant" with the initial-creation note, the new
    statistics, and every file of the new snapshot as added, none removed,
    none modified. *)
Theorem unreadable_previous_snapshot fault backup p new_index w e :
  old_path_of backup = Some p ->
  is_Some (fs w !! p) ->
  read_json fault p w = (Raise e, w) ->
  analyze_changes fault backup new_index w
  = (Ok (false, mkChangeData None None None "auto_approved"
                             (NoteUnreadable (exn_msg e))),
     mkWorld (fs w) (clock w) (stdout w ++ [MsgCouldNotReadPrevious e])) /\
  forall backup',
    (old_path_of backup' = None \/
     exists q, old_path_of backup' = Some q /\ fs w !! q = None) ->
    analyze_changes fault backup' new_index w
    = (Ok (false, mkChangeData None (Some (stats new_index))
                    (Some (mkFileChanges (Dict.keys (files new_index)) [] []))
                    "auto_approved" NoteInitial),
       mkWorld (fs w) (clock w) (stdout w ++ [MsgCreatingNew])).
Proof.
  intros Hp Hsome Hread. split.
  - unfold analyze_changes. rewrite Hp.
    unfold bind at 1, path_exists.
    rewrite bool_decide_eq_true_2 by exact Hsome. simpl.
    unfold bind at 1, try_except, bind at 1. rewrite Hread.
    destruct (read_json_raises _ _ _ _ _ Hread) as [-> _].
    reflexivity.
  - intros backup' [Hnone|(q & Hq & Hfs)]; unfold analyze_changes.
    + rewrite Hnone. reflexivity.
    + rewrite Hq. unfold bind at 1, path_exists. rewrite Hfs.
      rewrite bool_decide_eq_false_2 by (intros [? ?]; discriminate).
      reflexivity.
Qed.

Lemma unreadable_previous_snapshot_witness :
  analyze_changes no_fault backup_object (snapshot 2 0 0)
                  (world_with_backup (CRaw "{ truncated"))
  = (Ok (false, mkChangeData None None None "auto_approved"
                             (NoteUnreadable "Expecting value")),
     mkWorld (fs (world_with_backup (CRaw "{ truncated"))) 1
             [MsgCouldNotReadPrevious (mkExn JSONDecodeError "Expecting value")]).
Proof.
  apply (unreadable_previous_snapshot no_fault backup_object backup_file
           (snapshot 2 0 0) (world_with_backup (CRaw "{ truncated"))
           (mkExn JSONDecodeError "Expecting value")).
  - reflexivity.
  - vm_compute. eauto.
  - reflexivity.
Defined.

End AnalyzerFacts.

(** ** Backup rotation *)

Module RotationFacts.
Import Records World Backup Pipeline RotationExamples.

Lemma insert_permutation x l : Permutation (insert_newest_first x l) (x :: l).
Proof.
  induction l as [|y l IH]; simpl; auto.
  destruct (y.2 <=? x.2); auto.
  rewrite IH. apply perm_swap.
Qed.

Lemma sort_permutation l : Permutation (sort_newest_first l) l.
Proof.
  induction l as [|x l IH]; simpl; auto.
  rewrite insert_permutation. now constructor.
Qed.

Lemma insert_sorted x l :
  StronglySorted not_older l -> StronglySorted not_older (insert_newest_first x l).
Proof.
  induction 1 as [|y l Hs IH Hall]; simpl.
  - repeat constructor.
  - destruct (y.2 <=? x.2) eqn:E.
    + apply Z.leb_le in E. constructor; [now constructor|].
      constructor; [exact E|].
      eapply Forall_impl; [exact Hall|]. unfold not_older. intros; lia.
    + apply Z.leb_gt in E. constructor; [exact IH|].
      apply (Permutation_Forall (x := x :: l)).
      * symmetry. apply insert_permutation.
      * constructor; [unfold not_older; lia | exact Hall].
Qed.

Lemma sort_sorted l : StronglySorted not_older (sort_newest_first l).
Proof.
  induction l as [|x l IH]; simpl; [constructor | now apply insert_sorted].
Qed.

Lemma sorted_split l1 l2 a b :
  StronglySorted not_older (l1 ++ l2) -> In a l1 -> In b l2 -> not_older a b.
Proof.
  induction l1 as [|x l1 IH]; simpl; intros Hs Ha Hb; [destruct Ha|].
  inversion Hs as [|? ? Hs' Hall]; subst.
  destruct Ha as [->|Ha]; [|now apply IH].
  rewrite Forall_forall in Hall. apply Hall.
  apply list_elem_of_In, in_or_app. now right.
Qed.







(** With two newer snapshot backups and a cap of two, rotation deletes the
    log file and keeps both backups. *)
Example rotation_deletes_log :
  let w := (manage_backup_rotation no_fault backup_dir_name 2 crowded).2 in
  fs w !! log_path = None /\
  stdout w = [MsgRemovedOldBackup log_file_name] /\
  size (fs w) = 3%nat.
Proof. vm_compute. auto. Qed.

End RotationFacts.

(** ** Atomic save, log completion and the default action *)

Module PipelineFacts.
Import Records World Backup Analyzer Pipeline AnalyzerExamples RotationExamples.
Import AnalyzerFacts.
Local Open Scope world_scope.

Example temp_path_of_output : with_suffix ".json.tmp" output_path = "PROJECT_INDEX.json.tmp".
Proof. reflexivity. Qed.

Section Save.

Variable fault : Op -> option Failure.

Lemma leave_residue_other p q f w :
  p <> q -> fs (leave_residue p f w) !! q = fs w !! q.
Proof.
  intros Hne. unfold leave_residue. destruct (residue f); simpl; auto.
  now rewrite lookup_insert_ne.
Qed.

Lemma leave_residue_stdout p f w : stdout (leave_residue p f w) = stdout w.
Proof. unfold leave_residue. now destruct (residue f). Qed.

(** The body of the [try] of [safe_save_index], when it fails: the final
    path is untouched and nothing is printed. *)
Lemma save_body_fails index out w :
  save_fails fault out -> with_suffix ".json.tmp" out <> out ->
  exists e w1,
    (write_file fault (with_suffix ".json.tmp" out) (CIndex index) ;;;
     replace fault (with_suffix ".json.tmp" out) out ;;;
     print (MsgSaved out) ;;; ret true) w = (Raise e, w1) /\
    is_Exception e = true /\
    fs w1 !! out = fs w !! out /\
    (forall q, q <> with_suffix ".json.tmp" out -> fs w1 !! q = fs w !! q) /\
    stdout w1 = stdout w.
Proof.
  intros Hfail Hne. unfold bind at 1, write_file.
  destruct (fault (OpWrite _)) as [f|] eqn:Ew.
  - do 2 eexists. split; [reflexivity|]. split; [reflexivity|].
    split; [now apply leave_residue_other|].
    split; [intros q Hq; apply leave_residue_other; congruence|].
    apply leave_residue_stdout.
  - destruct Hfail as [[? H]|[f Hf]]; [congruence|].
    unfold bind at 1, replace. rewrite Hf. unfold os_error, raise. simpl.
    do 2 eexists. split; [reflexivity|]. split; [reflexivity|]. simpl.
    split; [now rewrite lookup_insert_ne|].
    split; [intros q Hq; now rewrite lookup_insert_ne by congruence|reflexivity].
Qed.

(** With a path, as the signature of [safe_save_index] has it, the rollback
    is what the documentation says: the backup is copied over the final
    path, and a failing copy is reported and goes no further. *)
Lemma rollback_with_path index out p file w :
  save_fails fault out -> with_suffix ".json.tmp" out <> out ->
  p <> with_suffix ".json.tmp" out ->
  fs w !! p = Some file ->
  exists w',
    safe_save_index fault index out (BPath p) w = (Ok false, w') /\
    (fault (OpCopy p out) = None ->
     fs w' !! out = Some file /\ last (stdout w') = Some MsgRestored) /\
    (forall f, fault (OpCopy p out) = Some f ->
     last (stdout w')
     = Some (MsgRollbackFailed (mkExn OSError (failure_msg f)))).
Proof.
  intros Hfail Hne Hp Hfs.
  destruct (save_body_fails index out w Hfail Hne)
    as (e & w1 & Hbody & He & Hout & Hframe & Hstd).
  unfold safe_save_index, try_except. rewrite Hbody, He.
  unfold bind at 1, print at 1. unfold bind at 1, rollback.
  unfold bind at 1, path_exists. simpl.
  rewrite (Hframe p Hp), Hfs.
  rewrite bool_decide_eq_true_2 by eauto.
  unfold try_except, bind at 1, copy2.
  destruct (fault (OpCopy p out)) as [f|] eqn:Ec; simpl.
  - eexists. split; [reflexivity|]. split; [discriminate|].
    intros f' [= <-]. unfold leave_residue.
    destruct (residue f); simpl; now rewrite last_snoc.
  - rewrite (Hframe p Hp), Hfs. simpl.
    eexists. split; [reflexivity|]. split; [|discriminate].
    intros _. simpl. rewrite lookup_insert_eq, last_snoc. auto.
Qed.

(** C1, what the code does.  [main] hands [safe_save_index] the object that
    [create_backup] returned.  When the temporary write or the replace
    fails, the rollback test calls [exists] on that object: an
    [AttributeError] leaves [safe_save_index], nothing is copied back and
    no rollback message is printed.  The final path still holds what it
    held. *)
Theorem rollback_breaks_on_backup_object index out b w :
  save_fails fault out -> with_suffix ".json.tmp" out <> out ->
  exists e0 w',
    safe_save_index fault index out (BInfo b) w
    = (Raise (mkExn AttributeError
                    "'BackupInfo' object has no attribute 'exists'"), w') /\
    fs w' !! out = fs w !! out /\
    stdout w' = (stdout w ++ [MsgSaveFailed e0])%list.
Proof.
  intros Hfail Hne.
  destruct (save_body_fails index out w Hfail Hne)
    as (e & w1 & Hbody & He & Hout & _ & Hstd).
  unfold safe_save_index, try_except. rewrite Hbody, He.
  unfold bind, print, rollback, raise. simpl.
  exists e. eexists. split; [reflexivity|]. simpl. now rewrite Hstd.
Qed.

End Save.

Lemma rollback_breaks_on_backup_object_witness :
  exists e0 w',
    safe_save_index disk_full (snapshot 3 0 0) output_path
                    (BInfo backup_info_object) indexed_once
    = (Raise (mkExn AttributeError
                    "'BackupInfo' object has no attribute 'exists'"), w') /\
    fs w' !! output_path = fs indexed_once !! output_path /\
    stdout w' = (stdout indexed_once ++ [MsgSaveFailed e0])%list.
Proof.
  apply (rollback_breaks_on_backup_object disk_full (snapshot 3 0 0)
           output_path backup_info_object indexed_once).
  - left. vm_compute. eauto.
  - vm_compute. discriminate.
Defined.

(** The same failure in a whole run: the error surfaces as "unexpected",
    no rollback is reported, and the log entry records the failure. *)
Example failed_save_in_a_run :
  exists w',
    main disk_full byte_size "20250102_000000" "2025-01-02T00:00:00"
         "/project" char_size (Line "y") (Ok (snapshot 3 0 0, 0)) 10 1
         indexed_once
    = Some (Ok tt, w') /\
    stdout w'
    = [MsgBackupCreated "PROJECT_INDEX_20250102_000000.json" 512;
       MsgStatistics 1 0 (mkFileChanges ["xxx.py"] [] []);
       MsgLooksReasonable; MsgAutoApproving;
       MsgSaveFailed (mkExn OSError "No space left on device");
       MsgUnexpected (mkExn AttributeError
                            "'BackupInfo' object has no attribute 'exists'")] /\
    fs w' !! output_path = fs indexed_once !! output_path.
Proof. eexists. split; [vm_compute; reflexivity|]. split; reflexivity. Qed.

Section Run.

Variable fault : Op -> option Failure.
Variable size_of : Content -> Z.
Variable stamp : string.
Variable now_iso : string.
Variable cwd : string.
Variable dumps_len : Index -> Z.
Variable user : Input.

Lemma read_json_world p w r w' : read_json fault p w = (r, w') -> w' = w.
Proof.
  unfold read_json. destruct (fault (OpRead p)).
  - unfold os_error, raise. now intros [= _ <-].
  - destruct (fs w !! p) as [[[] ?]|]; now intros [= _ <-].
Qed.



Lemma save_body_cases index out w :
  with_suffix ".json.tmp" out <> out ->
  (exists w1,
     (write_file fault (with_suffix ".json.tmp" out) (CIndex index) ;;;
      replace fault (with_suffix ".json.tmp" out) out ;;;
      print (MsgSaved out) ;;; ret true) w = (Ok true, w1) /\
     fs w1 !! out = Some (mkFileNode (CIndex index) (clock w)) /\
     forall q, q <> with_suffix ".json.tmp" out -> q <> out ->
               fs w1 !! q = fs w !! q) \/
  (exists e w1,
     (write_file fault (with_suffix ".json.tmp" out) (CIndex index) ;;;
      replace fault (with_suffix ".json.tmp" out) out ;;;
      print (MsgSaved out) ;;; ret true) w = (Raise e, w1) /\
     is_Exception e = true /\
     forall q, q <> with_suffix ".json.tmp" out -> fs w1 !! q = fs w !! q).
Proof.
  intros Hne. set (temp := with_suffix ".json.tmp" out) in *.
  unfold bind at 1, write_file.
  destruct (fault (OpWrite temp)) as [f|] eqn:Ew.
  - right. do 2 eexists. split; [reflexivity|]. split; [reflexivity|].
    intros q Hq. apply leave_residue_other. congruence.
  - unfold bind at 1, replace.
    destruct (fault (OpReplace temp out)) as [f|] eqn:Er.
    + right. unfold os_error, raise.
      do 2 eexists. split; [reflexivity|]. split; [reflexivity|]. simpl.
      intros q Hq. now rewrite lookup_insert_ne by congruence.
    + left. simpl. rewrite lookup_insert_eq.
      unfold bind, print, ret. simpl.
      eexists. split; [reflexivity|]. simpl.
      split; [now rewrite lookup_insert_eq|].
      intros q Hq Hq'.
      rewrite lookup_insert_ne, lookup_delete_ne, lookup_insert_ne
        by congruence.
      reflexivity.
Qed.














End Run.



End PipelineFacts.

(** ** More on the indexing step and the size governor *)

Module IndexingMore.
Import Indexing Governor IndexingFacts.

Section WithUtils.

Variable PARSEABLE_LANGUAGES : Dict.t string.
Variable get_language_name : string -> string.
Variable extract_python extract_javascript extract_shell :
  string -> outcome Extracted.

(** Whatever the suffix and whatever reading and extraction do, a code file
    goes into exactly one of the two counters, once; the other statistics
    are left to the caller. *)
Theorem every_file_counted_once suffix file_purpose read_text st :
  let r := index_code_file PARSEABLE_LANGUAGES get_language_name
             extract_python extract_javascript extract_shell
             suffix file_purpose read_text st in
  total (fully_parsed r.2) + total (listed_only r.2)
  = total (fully_parsed st) + total (listed_only st) + 1 /\
  (fully_parsed r.2 = fully_parsed st \/ listed_only r.2 = listed_only st) /\
  total_files r.2 = total_files st /\
  total_directories r.2 = total_directories st /\
  markdown_files r.2 = markdown_files st /\
  language r.1 = get_language_name suffix /\
  purpose r.1 = file_purpose.
Proof.
  unfold index_code_file.
  destruct (Dict.get suffix PARSEABLE_LANGUAGES) as [lang_key|];
    [destruct read_text as [content|msg];
     [destruct (extract _ _ _ suffix content) as [extracted|msg]|]|];
    simpl; rewrite ?total_bump;
    try (destruct (nonempty _ || nonempty _); simpl);
    repeat split; auto; lia.
Qed.

(** A record is marked parsed exactly when the suffix is in the parser
    table, the file could be read, and the extractor returned at least one
    function or class; it then carries what the extractor returned.  In
    every other case the record has no symbols and no imports. *)
Theorem parsed_means_symbols suffix file_purpose read_text st :
  let r := index_code_file PARSEABLE_LANGUAGES get_language_name
             extract_python extract_javascript extract_shell
             suffix file_purpose read_text st in
  (parsed r.1 = true <->
   exists lang_key content extracted,
     Dict.get suffix PARSEABLE_LANGUAGES = Some lang_key /\
     read_text = Returned content /\
     extract extract_python extract_javascript extract_shell suffix content
     = Returned extracted /\
     nonempty (ex_functions extracted) || nonempty (ex_classes extracted) = true /\
     functions r.1 = Some (ex_functions extracted) /\
     classes r.1 = Some (ex_classes extracted) /\
     imports r.1 = ex_imports extracted) /\
  (parsed r.1 = false ->
   functions r.1 = None /\ classes r.1 = None /\ imports r.1 = None).
Proof.
  unfold index_code_file.
  destruct (Dict.get suffix PARSEABLE_LANGUAGES) as [lang_key|];
    [destruct read_text as [content|msg];
     [destruct (extract _ _ _ suffix content) as [extracted|msg] eqn:E|]|];
    simpl.
  - destruct (nonempty _ || nonempty _) eqn:Hn; simpl.
    + split; [|discriminate]. split; auto. intros _.
      exists lang_key, content, extracted. auto 10.
    + split; auto. split; [discriminate|].
      intros (? & ? & ex' & _ & [= <-] & Hex & Hne & _).
      rewrite E in Hex. injection Hex as <-. congruence.
  - split; auto. split; [discriminate|].
    intros (? & ? & ? & _ & [= <-] & Hex & _). congruence.
  - split; auto. split; [discriminate|].
    intros (? & ? & ? & _ & H & _). discriminate H.
  - split; auto. split; [discriminate|].
    intros (? & ? & ? & H & _). discriminate H.
Qed.

(** A failed read or a failed extraction is not an error of the run: the
    file is listed under its language name and not counted as parsed. *)
Theorem failure_lists_the_file suffix file_purpose read_text st :
  (exists msg, read_text = Raised msg) \/
  (exists content msg,
     read_text = Returned content /\
     extract extract_python extract_javascript extract_shell suffix content
     = Raised msg) ->
  let r := index_code_file PARSEABLE_LANGUAGES get_language_name
             extract_python extract_javascript extract_shell
             suffix file_purpose read_text st in
  parsed r.1 = false /\
  fully_parsed r.2 = fully_parsed st /\
  Dict.get (get_language_name suffix) (listed_only r.2)
  = Some (default 0 (Dict.get (get_language_name suffix) (listed_only st)) + 1).
Proof.
  intros H. unfold index_code_file.
  destruct (Dict.get suffix PARSEABLE_LANGUAGES) as [lang_key|].
  - destruct H as [[msg ->]|(content & msg & -> & ->)]; simpl;
      auto using get_bump.
  - simpl. auto using get_bump.
Qed.

End WithUtils.

Lemma failure_lists_the_file_witness :
  let r := index_code_file IndexingExamples.parseable
             IndexingExamples.language_name
             IndexingExamples.finds_nothing IndexingExamples.finds_nothing
             IndexingExamples.finds_nothing
             ".py" None (Raised "permission denied")
             GovernorExamples.empty_stats in
  parsed r.1 = false /\
  fully_parsed r.2 = [] /\
  Dict.get "python" (listed_only r.2) = Some (default 0 None + 1).
Proof.
  apply (failure_lists_the_file IndexingExamples.parseable
           IndexingExamples.language_name
           IndexingExamples.finds_nothing IndexingExamples.finds_nothing
           IndexingExamples.finds_nothing
           ".py" None (Raised "permission denied")
           GovernorExamples.empty_stats).
  left. eauto.
Defined.

End IndexingMore.

Module GovernorMore.
Import Governor GovernorExamples GovernorFacts.

Lemma all_parsed fl : unparsed_count fl = O -> parsed_only fl = fl.
Proof.
  unfold unparsed_count, parsed_only.
  induction fl as [|[p info] fl IH]; simpl; auto.
  destruct (parsed info); simpl; [|discriminate].
  intros H. now rewrite IH.
Qed.

Lemma remove_sublist fl : remove_first_unparsed fl `sublist_of` fl.
Proof.
  induction fl as [|[p info] fl IH]; simpl; [constructor|].
  destruct (parsed info); simpl.
  - now constructor.
  - now apply sublist_cons.
Qed.

Lemma with_files_twice idx a b : with_files (with_files idx a) b = with_files idx b.
Proof. reflexivity. Qed.

Section WithSerializer.

Variable dumps_len : Index -> Z.

(** What the loop hands back, whenever it hands back anything. *)
Lemma loop_result fuel : forall idx r,
  compress_loop dumps_len fuel idx = Some r ->
  parsed_only (files r) = parsed_only (files idx) /\
  files r `sublist_of` files idx /\
  r = with_files idx (files r) /\
  over_budget dumps_len r = false.
Proof.
  induction fuel as [|fuel IH]; intros idx r; simpl; [discriminate|].
  destruct (over_budget dumps_len idx) eqn:E.
  - intros H. apply IH in H as (Hp & Hs & Hr & Ho). simpl in *.
    split; [now rewrite Hp, remove_keeps_parsed|].
    split; [etransitivity; [exact Hs|apply remove_sublist]|].
    split; [|exact Ho]. rewrite Hr at 1. reflexivity.
  - intros [= <-]. repeat split; auto. now destruct idx.
Qed.

(** Whenever the governor returns, every fully parsed record is still there,
    in order; what is missing are unparsed records only; the statistics and
    the dependency graph are the ones of the input, also when records were
    dropped.  A snapshot within budget comes back as it is.  One over budget
    comes back with at most 101 tree lines, the first 100 its own, and
    either fits the budget or has no file record left. *)
Theorem governor_keeps_parsed_records fuel idx r :
  compress_index_if_needed dumps_len fuel idx = Some r ->
  parsed_only (files r) = parsed_only (files idx) /\
  files r `sublist_of` files idx /\
  stats r = stats idx /\
  dependency_graph r = dependency_graph idx /\
  (dumps_len idx <= MAX_INDEX_SIZE -> r = idx) /\
  (MAX_INDEX_SIZE < dumps_len idx ->
   (length (tree r) <= 101)%nat /\
   firstn 100 (tree r) = firstn 100 (tree idx) /\
   (dumps_len r <= MAX_INDEX_SIZE \/ files r = [])).
Proof.
  unfold compress_index_if_needed.
  destruct (dumps_len idx <=? MAX_INDEX_SIZE) eqn:E.
  - intros [= <-]. apply Z.leb_le in E.
    split; [reflexivity|]. split; [reflexivity|]. split; [reflexivity|].
    split; [reflexivity|]. split; [reflexivity|]. intros; lia.
  - apply Z.leb_gt in E. intros H.
    apply loop_result in H as (Hp & Hs & Hr & Ho).
    rewrite files_truncate_tree in Hp, Hs.
    assert (Ht : tree r = tree (truncate_tree idx)) by (rewrite Hr; reflexivity).
    split; [exact Hp|]. split; [exact Hs|].
    split; [rewrite Hr; unfold truncate_tree; now destruct (_ <? _)%nat|].
    split; [rewrite Hr; unfold truncate_tree; now destruct (_ <? _)%nat|].
    split; [lia|]. intros _. rewrite Ht. unfold truncate_tree.
    destruct (100 <? length (tree idx))%nat eqn:El; simpl.
    + apply Nat.ltb_lt in El.
      split; [rewrite length_app; pose proof (firstn_le_length 100 (tree idx));
              simpl length; lia|].
      split.
      * rewrite firstn_app, firstn_firstn, length_firstn.
        replace (100 - 100 `min` length (tree idx))%nat with O by lia.
        simpl. now rewrite app_nil_r.
      * unfold over_budget in Ho. apply andb_false_iff in Ho as [Ho|Ho].
        -- left. apply Z.ltb_ge in Ho. exact Ho.
        -- right. now destruct (files r).
    + apply Nat.ltb_ge in El. split; [lia|]. split; [reflexivity|].
      unfold over_budget in Ho. apply andb_false_iff in Ho as [Ho|Ho].
      * left. apply Z.ltb_ge in Ho. exact Ho.
      * right. now destruct (files r).
Qed.

Lemma loop_returns n : forall idx,
  unparsed_count (files idx) = n ->
  dumps_len (with_files idx (parsed_only (files idx))) <= MAX_INDEX_SIZE \/
  parsed_only (files idx) = [] ->
  forall fuel, (n < fuel)%nat ->
  exists r, compress_loop dumps_len fuel idx = Some r.
Proof.
  induction n as [|n IH]; intros idx Hn Hfit fuel Hfuel;
    (destruct fuel as [|fuel]; [lia|]); simpl;
    destruct (over_budget dumps_len idx) eqn:E; eauto.
  - exfalso. unfold over_budget in E. apply andb_true_iff in E as [E1 E2].
    apply Z.ltb_lt in E1. rewrite (all_parsed _ Hn) in Hfit.
    rewrite with_files_same in Hfit. destruct Hfit as [H|H]; [lia|].
    rewrite H in E2. discriminate E2.
  - apply IH; simpl.
    + now apply remove_one.
    + now rewrite remove_keeps_parsed.
    + lia.
Qed.

(** The loop ends when dropping the unparsed records is enough: if the
    snapshot without them (and with its tree truncated) fits the budget, or
    if no record is parsed, the governor returns after at most one
    iteration per unparsed record, plus the one that finds the loop
    condition false. *)
Theorem governor_returns_when_unparsed_suffice idx fuel :
  dumps_len (stripped idx) <= MAX_INDEX_SIZE \/ parsed_only (files idx) = [] ->
  (unparsed_count (files idx) < fuel)%nat ->
  exists r, compress_index_if_needed dumps_len fuel idx = Some r.
Proof.
  intros Hfit Hfuel. unfold compress_index_if_needed.
  destruct (dumps_len idx <=? MAX_INDEX_SIZE); eauto.
  apply (loop_returns (unparsed_count (files idx))); auto;
    rewrite files_truncate_tree; auto.
Qed.

End WithSerializer.

Lemma governor_keeps_parsed_records_witness :
  parsed_only (files (with_files heavy [("a.py", parsed_file)]))
  = parsed_only (files heavy) /\
  files (with_files heavy [("a.py", parsed_file)]) `sublist_of` files heavy.
Proof.
  destruct (governor_keeps_parsed_records
              (fun idx => MAX_INDEX_SIZE - 1 + Z.of_nat (length (files idx)))
              3 heavy (with_files heavy [("a.py", parsed_file)]))
    as (H1 & H2 & _); [reflexivity|].
  split; [exact H1|exact H2].
Defined.

Lemma governor_returns_when_unparsed_suffice_witness :
  exists r,
    compress_index_if_needed
      (fun idx => MAX_INDEX_SIZE - 1 + Z.of_nat (length (files idx)))
      2 heavy = Some r.
Proof.
  apply (governor_returns_when_unparsed_suffice
           (fun idx => MAX_INDEX_SIZE - 1 + Z.of_nat (length (files idx)))
           heavy 2).
  - left. vm_compute. discriminate.
  - vm_compute. lia.
Defined.

End GovernorMore.

(** ** More on the call graph *)

Module CallGraphMore.
Import CallGraph CallGraphWords CallGraphFacts.

Section FoldingIn.
Context {S E : Type} (f : S -> E -> S) (P : S -> Prop) (l : list E).
Hypothesis step_keeps : forall s e, In e l -> P s -> P (f s e).

Lemma fold_left_keeps_in s : P s -> P (fold_left f l s).
Proof.
  revert s step_keeps. induction l as [|e l' IH]; simpl; intros s Hk Hs; auto.
Qed.

End FoldingIn.

Lemma add_caller_sound fl s c g :
  calls_name fl s c -> edges_sound fl g -> edges_sound fl (add_caller s g c).
Proof.
  intros Hsc Hg c' l s'. unfold add_caller.
  destruct (decide (c = c')) as [<-|Hne].
  - rewrite lookup_insert_eq. intros [= <-] Hin.
    apply in_app_or in Hin as [Hin|[<-|[]]]; auto.
    destruct (g !! c) as [l0|] eqn:E; simpl in Hin; [|destruct Hin].
    eapply Hg; eauto.
  - rewrite lookup_insert_ne by done. apply Hg.
Qed.

Lemma collect_symbol_sound fl full s d g :
  symbol fl s d -> edges_sound fl (called_by_graph g) ->
  edges_sound fl (called_by_graph (collect_symbol full s d g)).
Proof.
  intros Hs Hg. unfold collect_symbol.
  destruct (sym_calls d) as [calls|] eqn:E; auto.
  unfold register; simpl.
  apply fold_left_keeps_in; auto.
  intros g' c Hin Hg'. apply add_caller_sound; auto.
  exists d, calls. auto.
Qed.

Lemma collect_sound fl : edges_sound fl (called_by_graph (collect fl)).
Proof.
  unfold collect.
  apply (fold_left_keeps_in collect_file
           (fun g => edges_sound fl (called_by_graph g))).
  - intros g [path fr] Hf Hg. unfold collect_file; simpl.
    assert (H1 : edges_sound fl (called_by_graph
              match functions fr with
              | Some fs => fold_left (collect_function path) fs g
              | None => g
              end)).
    { destruct (functions fr) as [fs|] eqn:Efs; auto.
      apply (fold_left_keeps_in (collect_function path)
               (fun g => edges_sound fl (called_by_graph g))); auto.
      intros g' [name d] Hd Hg'. unfold collect_function; simpl.
      apply collect_symbol_sound; auto.
      eapply symbol_function; eauto. }
    destruct (classes fr) as [cs|] eqn:Ecs; auto.
    apply (fold_left_keeps_in (collect_class path)
             (fun g => edges_sound fl (called_by_graph g))); auto.
    intros g' [cn cr] Hc Hg'. unfold collect_class; simpl.
    destruct (methods cr) as [ms|] eqn:Ems; auto.
    apply (fold_left_keeps_in (collect_method path cn)
             (fun g => edges_sound fl (called_by_graph g))); auto.
    intros g'' [name d] Hd Hg''. unfold collect_method; simpl.
    apply collect_symbol_sound; auto.
    eapply symbol_method; eauto.
  - intros c l s H. simpl in H. rewrite lookup_empty in H. discriminate H.
Qed.

Lemma list_set_in s l : In s (list_set l) -> In s l.
Proof.
  unfold list_set. intros H. apply list_elem_of_In, elem_of_elements in H.
  apply elem_of_list_to_set in H. now apply list_elem_of_In.
Qed.

Lemma attach_keeps callers d :
  sym_signature (attach callers d) = sym_signature d /\
  sym_calls (attach callers d) = sym_calls d.
Proof. now destruct d. Qed.

(** The reverse edges are sound.  After the build, a name in the
    [called_by] list of a function is the bare name of a symbol that calls
    the function by its name; a name in the [called_by] list of a method is
    the bare name of a symbol that calls it by its bare or by its qualified
    name.  The only other entries are those of a [called_by] list the record
    already carried before the build and that no call edge replaced. *)
Theorem called_by_is_sound fl :
  (forall path fr fs name d cb s,
     In (path, fr) (build_call_graph fl) -> functions fr = Some fs ->
     In (name, d) fs -> sym_called_by d = Some cb -> In s cb ->
     calls_name fl s name \/
     exists fr0 fs0 d0,
       In (path, fr0) fl /\ functions fr0 = Some fs0 /\ In (name, d0) fs0 /\
       d = d0) /\
  (forall path fr cs class_name cr ms name d cb s,
     In (path, fr) (build_call_graph fl) -> classes fr = Some cs ->
     In (class_name, cr) cs -> methods cr = Some ms -> In (name, d) ms ->
     sym_called_by d = Some cb -> In s cb ->
     calls_name fl s name \/ calls_name fl s (qualified class_name name) \/
     exists fr0 cs0 cr0 ms0 d0,
       In (path, fr0) fl /\ classes fr0 = Some cs0 /\
       In (class_name, cr0) cs0 /\ methods cr0 = Some ms0 /\
       In (name, d0) ms0 /\ d = d0).
Proof.
  pose proof (collect_sound fl) as Hsound.
  unfold build_call_graph. split.
  - intros path fr fs name d cb s Hf Hfs Hd Hcb Hin.
    destruct (merged_function_origin _ _ _ _ _ _ _ Hf Hfs Hd)
      as (fr0 & fs0 & d0 & H1 & H2 & H3 & Heq).
    unfold merge_function in Heq. simpl in Heq.
    destruct (called_by_graph (collect fl) !! name) as [callers|] eqn:E.
    + injection Heq as ->. rewrite attach_called_by in Hcb.
      injection Hcb as <-. left. eapply Hsound; eauto.
    + injection Heq as ->. right. eauto 10.
  - intros path fr cs cn cr ms name d cb s Hf Hcs Hcr Hms Hd Hcb Hin.
    destruct (merged_method_origin _ _ _ _ _ _ _ _ _ _ Hf Hcs Hcr Hms Hd)
      as (fr0 & cs0 & cr0 & ms0 & d0 & H1 & H2 & H3 & H4 & H5 & Heq).
    unfold merge_method in Heq. simpl in Heq.
    destruct (_ || _).
    + destruct (_ ++ _)%list as [|x xs] eqn:E.
      * injection Heq as ->. right; right. eauto 12.
      * injection Heq as ->. rewrite attach_called_by in Hcb.
        injection Hcb as <-. apply list_set_in in Hin. rewrite <- E in Hin.
        apply in_app_or in Hin as [Hin|Hin].
        -- left.
           destruct (called_by_graph (collect fl) !! name) as [l|] eqn:El;
             simpl in Hin; [|destruct Hin].
           eapply Hsound; eauto.
        -- right; left.
           destruct (called_by_graph (collect fl) !! qualified cn name)
             as [l|] eqn:El; simpl in Hin; [|destruct Hin].
           eapply Hsound; eauto.
    + injection Heq as ->. right; right. eauto 12.
Qed.

(** Merging back changes [called_by] and nothing else. *)
Lemma merge_function_keeps cbg e :
  (merge_function cbg e).1 = e.1 /\
  sym_signature (merge_function cbg e).2 = sym_signature e.2 /\
  sym_calls (merge_function cbg e).2 = sym_calls e.2.
Proof.
  unfold merge_function. destruct (cbg !! e.1); simpl; auto.
  destruct (attach_keeps l e.2). auto.
Qed.

Lemma merge_method_keeps cbg cn e :
  (merge_method cbg cn e).1 = e.1 /\
  sym_signature (merge_method cbg cn e).2 = sym_signature e.2 /\
  sym_calls (merge_method cbg cn e).2 = sym_calls e.2.
Proof.
  unfold merge_method. destruct (_ || _); auto.
  destruct (_ ++ _)%list; simpl; auto.
  destruct (attach_keeps (list_set (s :: l)) e.2). auto.
Qed.

Lemma fold_left_map {S E} (f : S -> E -> S) (h : E -> E) l s :
  (forall s e, f s (h e) = f s e) ->
  fold_left f (map h l) s = fold_left f l s.
Proof.
  intros H. revert s. induction l as [|e l IH]; simpl; intros s; auto.
  now rewrite H, IH.
Qed.

Lemma collect_symbol_same full caller d d' g :
  sym_calls d' = sym_calls d ->
  collect_symbol full caller d' g = collect_symbol full caller d g.
Proof. unfold collect_symbol. now intros ->. Qed.

Lemma fold_functions_merged cbg path fs g :
  fold_left (collect_function path) (map (merge_function cbg) fs) g
  = fold_left (collect_function path) fs g.
Proof.
  apply fold_left_map. intros g' e. unfold collect_function.
  destruct (merge_function_keeps cbg e) as (-> & _ & Hc).
  now apply collect_symbol_same.
Qed.

Lemma fold_classes_merged cbg path cs g :
  fold_left (collect_class path) (map (merge_class cbg) cs) g
  = fold_left (collect_class path) cs g.
Proof.
  apply fold_left_map. intros g' [cn cr]. unfold collect_class, merge_class.
  simpl. destruct (methods cr) as [ms|] eqn:E; simpl; [|now rewrite E].
  apply fold_left_map. intros g'' e. unfold collect_method.
  destruct (merge_method_keeps cbg cn e) as (-> & _ & Hc).
  now apply collect_symbol_same.
Qed.

Lemma collect_file_merged cbg g e :
  collect_file g (merge_file cbg e) = collect_file g e.
Proof.
  destruct e as [path fr]. unfold collect_file, merge_file; simpl.
  destruct (functions fr) as [fs|], (classes fr) as [cs|]; simpl;
    rewrite ?fold_classes_merged, ?fold_functions_merged; reflexivity.
Qed.

Lemma collect_merged cbg fl : collect (merge_back cbg fl) = collect fl.
Proof.
  unfold collect, merge_back. apply fold_left_map.
  intros; apply collect_file_merged.
Qed.

Lemma attach_twice callers d : attach callers (attach callers d) = attach callers d.
Proof. now destruct d. Qed.

Lemma merge_function_twice cbg e :
  merge_function cbg (merge_function cbg e) = merge_function cbg e.
Proof.
  unfold merge_function. destruct (cbg !! e.1) eqn:E; simpl; rewrite E; auto.
  now rewrite attach_twice.
Qed.

Lemma merge_method_twice cbg cn e :
  merge_method cbg cn (merge_method cbg cn e) = merge_method cbg cn e.
Proof.
  unfold merge_method at 2.
  destruct (_ || _) eqn:Eb.
  - destruct (_ ++ _)%list as [|x xs] eqn:El.
    + unfold merge_method. now rewrite Eb, El.
    + unfold merge_method. simpl. rewrite Eb, El. now rewrite attach_twice.
  - unfold merge_method. now rewrite Eb.
Qed.

Lemma merge_file_twice cbg e :
  merge_file cbg (merge_file cbg e) = merge_file cbg e.
Proof.
  destruct e as [path fr]. unfold merge_file; simpl. f_equal. f_equal.
  - destruct (functions fr) as [fs|]; simpl; auto. f_equal.
    rewrite map_map. apply map_ext. intros; apply merge_function_twice.
  - destruct (classes fr) as [cs|]; simpl; auto. f_equal.
    rewrite map_map. apply map_ext. intros [cn cr].
    unfold merge_class; simpl.
    destruct (methods cr) as [ms|] eqn:E; simpl; [|now rewrite E].
    f_equal. f_equal. f_equal.
    rewrite map_map. apply map_ext. intros; apply merge_method_twice.
Qed.

(** Building the call graph of a snapshot whose call graph is built changes
    nothing: the forward edges are the same, so the reverse edges are. *)
Theorem build_call_graph_idempotent fl :
  build_call_graph (build_call_graph fl) = build_call_graph fl.
Proof.
  unfold build_call_graph. rewrite collect_merged.
  unfold merge_back. rewrite map_map. apply map_ext.
  intros; apply merge_file_twice.
Qed.

(** The build keeps the files and their order, and for every file its
    language, parsed flag, purpose and imports, the names of its functions
    and classes in order, and the names of the methods of each class; every
    record keeps its signature and its calls list.  Only [called_by]
    changes. *)
Theorem build_call_graph_keeps_the_rest fl :
  Dict.keys (build_call_graph fl) = Dict.keys fl /\
  Forall2 (fun e' e =>
             e'.1 = e.1 /\
             language e'.2 = language e.2 /\ parsed e'.2 = parsed e.2 /\
             purpose e'.2 = purpose e.2 /\ imports e'.2 = imports e.2 /\
             option_Forall2
               (Forall2 (fun f' f => f'.1 = f.1 /\
                           sym_signature f'.2 = sym_signature f.2 /\
                           sym_calls f'.2 = sym_calls f.2))
               (functions e'.2) (functions e.2) /\
             option_Forall2
               (Forall2 (fun c' c =>
                           c'.1 = c.1 /\
                           option_Forall2
                             (Forall2 (fun m' m =>
                                         m'.1 = m.1 /\
                                         sym_signature m'.2 = sym_signature m.2 /\
                                         sym_calls m'.2 = sym_calls m.2))
                             (methods c'.2) (methods c.2)))
               (classes e'.2) (classes e.2))
          (build_call_graph fl) fl.
Proof.
  unfold build_call_graph, merge_back.
  set (cbg := called_by_graph (collect fl)). clearbody cbg.
  split.
  - unfold Dict.keys. rewrite map_map. apply map_ext. now intros [].
  - induction fl as [|[path fr] fl IH]; simpl; constructor; auto.
    simpl. repeat split; auto.
    + destruct (functions fr) as [fs|]; simpl; constructor.
      induction fs as [|f fs IHf]; simpl; constructor; auto.
      apply merge_function_keeps.
    + destruct (classes fr) as [cs|]; simpl; constructor.
      induction cs as [|[cn cr] cs IHc]; simpl; constructor; auto.
      unfold merge_class; simpl.
      destruct (methods cr) as [ms|] eqn:E; simpl.
      * split; auto. constructor.
        clear E. induction ms as [|m ms IHm]; simpl; constructor; auto.
        apply merge_method_keeps.
      * split; auto. rewrite E. constructor.
Qed.

End CallGraphMore.

(** ** More on the dependency resolver *)

Module ResolverMore.
Import Resolver ResolverExamples ResolverFacts.

Lemma get_set_cases {V} k k' (v : V) d x :
  Dict.get k (Dict.set k' v d) = Some x ->
  (k = k' /\ x = v) \/ (k <> k' /\ Dict.get k d = Some x).
Proof.
  destruct (String.eqb_spec k k') as [->|Hne].
  - rewrite get_set_eq. intros [= <-]. auto.
  - rewrite get_set_ne by exact Hne. auto.
Qed.

(** Where an entry of the graph comes from. *)
Lemma graph_entry_origin fl0 l : forall g path deps,
  Dict.get path (fold_left (resolve_file fl0) l g) = Some deps ->
  Dict.get path g = Some deps \/
  exists fr imps,
    In (path, fr) l /\ imports fr = Some imps /\
    deps = dependencies_of fl0 path imps /\ deps <> [].
Proof.
  induction l as [|[p fr] l IH]; simpl; intros g path deps H; auto.
  apply IH in H as [H|(fr' & imps & Hin & Hi & Hd)]; [|eauto 10].
  unfold resolve_file in H; simpl in H.
  destruct (imports fr) as [[|i imps]|] eqn:Ei; auto.
  destruct (dependencies_of fl0 p (i :: imps)) as [|d ds] eqn:Ed; auto.
  apply get_set_cases in H as [[-> ->]|[_ H]]; auto.
  right. exists fr, (i :: imps). rewrite Ed. repeat split; auto; discriminate.
Qed.

Lemma resolve_import_short {V} (fl : Dict.t V) file_dir imp :
  (length (resolve_import fl file_dir imp) <= 1)%nat.
Proof.
  unfold resolve_import. destruct (Py.startswith "." imp); [|simpl; lia].
  destruct (first_match fl (resolve_base file_dir imp) known_extensions);
    simpl; lia.
Qed.

Lemma dependencies_short {V} (fl : Dict.t V) path imps :
  (length (dependencies_of fl path imps) <= length imps)%nat.
Proof.
  unfold dependencies_of. induction imps as [|imp imps IH]; simpl; [lia|].
  rewrite length_app.
  pose proof (resolve_import_short fl (PurePath.parent (PurePath.parse path)) imp).
  lia.
Qed.

Lemma dependency_origin {V} (fl : Dict.t V) file_dir imp dep :
  In dep (resolve_import fl file_dir imp) ->
  (Py.startswith "." imp = false /\ dep = imp) \/
  (Py.startswith "." imp = true /\
   exists ext, In ext known_extensions /\
     dep = Py.replace_backslash (resolve_base file_dir imp +:+ ext) /\
     (Dict.mem (resolve_base file_dir imp +:+ ext) fl = true \/
      Dict.mem dep fl = true)).
Proof.
  unfold resolve_import. destruct (Py.startswith "." imp).
  - destruct (first_match fl (resolve_base file_dir imp) known_extensions)
      as [t|] eqn:E; [|intros []].
    intros [<-|[]]. right. split; auto.
    apply first_match_first in E as (pre & ext & post & Hl & -> & Hm & _).
    exists ext. split; [rewrite Hl; apply in_or_app; right; now left|].
    split; auto. apply orb_true_iff in Hm. exact Hm.
  - intros [<-|[]]. auto.
Qed.

(** Every entry of the dependency graph belongs to a file of the mapping,
    is not empty, and is no longer than the import list of that file.  Each
    dependency in it is an import of the file that does not start with a
    dot, verbatim, or comes from one of its relative imports: the resolved
    base path plus one of the known extensions, backslashes turned to
    slashes, such that the path before or after that replacement is a key of
    the mapping. *)
Theorem dependency_graph_well_formed (fl : Dict.t FileRecord) path deps :
  Dict.get path (build_dependency_graph fl) = Some deps ->
  exists fr imps,
    In (path, fr) fl /\ imports fr = Some imps /\
    deps <> [] /\ (length deps <= length imps)%nat /\
    forall dep, In dep deps ->
      (In dep imps /\ Py.startswith "." dep = false) \/
      exists imp ext,
        In imp imps /\ Py.startswith "." imp = true /\
        In ext known_extensions /\
        let base :=
          resolve_base (PurePath.parent (PurePath.parse path)) imp in
        dep = Py.replace_backslash (base +:+ ext) /\
        (Dict.mem (base +:+ ext) fl = true \/ Dict.mem dep fl = true).
Proof.
  unfold build_dependency_graph. intros H.
  apply graph_entry_origin in H as [H|(fr & imps & Hin & Hi & -> & Hne)];
    [discriminate H|].
  exists fr, imps. split; [exact Hin|]. split; [exact Hi|].
  split; [exact Hne|]. split; [apply dependencies_short|].
  intros dep Hd. unfold dependencies_of in Hd.
  apply in_flat_map in Hd as (imp & Himp & Hd).
  apply dependency_origin in Hd as [[Hrel ->]|(Hrel & ext & Hext & -> & Hm)].
  - left. auto.
  - right. exists imp, ext. auto 10.
Qed.

Lemma dependency_graph_well_formed_witness :
  exists fr imps,
    In ("a/b/x.py", fr) parent_dir /\ imports fr = Some imps /\
    ["a/y.py"; "os"] <> [] /\ (length ["a/y.py"; "os"] <= length imps)%nat /\
    forall dep, In dep ["a/y.py"; "os"] ->
      (In dep imps /\ Py.startswith "." dep = false) \/
      exists imp ext,
        In imp imps /\ Py.startswith "." imp = true /\
        In ext known_extensions /\
        let base :=
          resolve_base (PurePath.parent (PurePath.parse "a/b/x.py")) imp in
        dep = Py.replace_backslash (base +:+ ext) /\
        (Dict.mem (base +:+ ext) parent_dir = true \/
         Dict.mem dep parent_dir = true).
Proof.
  apply (dependency_graph_well_formed parent_dir "a/b/x.py" ["a/y.py"; "os"]).
  reflexivity.
Defined.

(** A file whose imports all start without a dot gets its import list as
    its dependency list, unchanged and in order. *)
Theorem external_imports_verbatim (fl : Dict.t FileRecord) path fr imps :
  NoDup (Dict.keys fl) -> In (path, fr) fl ->
  imports fr = Some imps -> imps <> [] ->
  (forall imp, In imp imps -> Py.startswith "." imp = false) ->
  Dict.get path (build_dependency_graph fl) = Some imps.
Proof.
  intros Hnd Hin Hi Hne Hext.
  assert (Hd : dependencies_of fl path imps = imps).
  { unfold dependencies_of. clear Hi Hne.
    induction imps as [|imp imps IH]; simpl; auto.
    unfold resolve_import at 1. rewrite (Hext imp) by now left.
    simpl. f_equal. apply IH. intros; apply Hext; now right. }
  destruct imps as [|i imps]; [now destruct Hne|].
  unfold build_dependency_graph.
  eapply fold_resolve_here; eauto.
Qed.

Lemma external_imports_verbatim_witness :
  Dict.get "tool.py"
    (build_dependency_graph
       [("tool.py", src ["os"; "json"; "pathlib"]); ("a/c.py", bare)])
  = Some ["os"; "json"; "pathlib"].
Proof.
  apply (external_imports_verbatim _ "tool.py" (src ["os"; "json"; "pathlib"])).
  - apply (bool_decide_unpack _). vm_compute. reflexivity.
  - simpl; auto.
  - reflexivity.
  - discriminate.
  - intros imp [<-|[<-|[<-|[]]]]; reflexivity.
Defined.

Lemma fold_resolve_absent fl0 l g path fr :
  NoDup (Dict.keys l) -> In (path, fr) l ->
  match imports fr with
  | Some imps => dependencies_of fl0 path imps = []
  | None => True
  end ->
  Dict.get path g = None ->
  Dict.get path (fold_left (resolve_file fl0) l g) = None.
Proof.
  revert g. induction l as [|e l IH]; simpl; intros g Hnd Hin Hi Hg; [easy|].
  inversion Hnd as [|? ? Hnotin Hnd']; subst.
  rewrite list_elem_of_In in Hnotin.
  destruct Hin as [->|Hin].
  - rewrite fold_resolve_other by exact Hnotin.
    unfold resolve_file; simpl.
    destruct (imports fr) as [[|i imps]|]; auto. now rewrite Hi.
  - apply IH; auto. rewrite resolve_file_other; auto.
    intros ->. apply Hnotin. apply in_map_iff. now exists (e.1, fr).
Qed.

(** A file without imports, and a file none of whose imports resolves (all
    are relative and match no key), has no entry in the graph: not even an
    empty one. *)
Theorem unresolved_files_are_absent (fl : Dict.t FileRecord) path fr :
  NoDup (Dict.keys fl) -> In (path, fr) fl ->
  match imports fr with
  | Some imps =>
      forall imp, In imp imps ->
        Py.startswith "." imp = true /\
        first_match fl
          (resolve_base (PurePath.parent (PurePath.parse path)) imp)
          known_extensions = None
  | None => True
  end ->
  Dict.get path (build_dependency_graph fl) = None.
Proof.
  intros Hnd Hin Hi. unfold build_dependency_graph.
  eapply fold_resolve_absent; eauto.
  destruct (imports fr) as [imps|]; auto.
  unfold dependencies_of. induction imps as [|imp imps IH]; simpl; auto.
  destruct (Hi imp) as [Hrel Hnone]; [now left|].
  unfold resolve_import at 1. rewrite Hrel, Hnone. simpl.
  apply IH. intros; apply Hi; now right.
Qed.

Lemma unresolved_files_are_absent_witness :
  Dict.get "a/b.py"
    (build_dependency_graph [("a/b.py", src ["./missing"; "../gone"])])
  = None.
Proof.
  apply (unresolved_files_are_absent _ "a/b.py" (src ["./missing"; "../gone"])).
  - apply (bool_decide_unpack _). vm_compute. reflexivity.
  - simpl; auto.
  - simpl. intros imp [<-|[<-|[]]]; split; reflexivity.
Defined.

Lemma removelast_firstn_pred {A} (l : list A) :
  removelast l = firstn (length l - 1) l.
Proof.
  induction l as [|x l IH]; simpl; auto.
  destruct l as [|y l]; simpl in *; auto.
  rewrite Nat.sub_0_r in IH. now rewrite IH.
Qed.

(** Climbing [n] directories drops the last [n] components and stops at the
    top: from a path with fewer than [n] components the result is the path
    without components, which prints as [.] (or as the root). *)
Theorem ascent_stops_at_the_top n (p : PurePath.t) :
  PurePath.anchor (Nat.iter n PurePath.parent p) = PurePath.anchor p /\
  PurePath.parts (Nat.iter n PurePath.parent p)
  = firstn (length (PurePath.parts p) - n) (PurePath.parts p).
Proof.
  induction n as [|n [IHa IHp]]; simpl.
  - rewrite Nat.sub_0_r, firstn_all. auto.
  - unfold PurePath.parent at 1 3.
    destruct (PurePath.parts (Nat.iter n PurePath.parent p)) as [|x xs] eqn:E.
    + split; [exact IHa|]. rewrite E.
      assert (Hlen : length (firstn (length (PurePath.parts p) - n)
                               (PurePath.parts p)) = O) by now rewrite <- IHp.
      rewrite length_firstn in Hlen.
      replace (length (PurePath.parts p) - S n)%nat with O by lia.
      reflexivity.
    + cbn [PurePath.anchor PurePath.parts]. split; [exact IHa|].
      rewrite removelast_firstn_pred, IHp, firstn_firstn, length_firstn.
      f_equal. lia.
Qed.

End ResolverMore.

(** ** More on file-level changes and the backup log *)

Module ChangesMore.
Import Records World Backup Analyzer AnalyzerExamples AnalyzerFacts.
Local Open Scope world_scope.

Lemma in_filter_elements (P : string -> bool) (X : gset string) k :
  In k (List.filter P (elements X)) <-> k ∈ X /\ P k = true.
Proof. rewrite filter_In, <- list_elem_of_In, elem_of_elements. reflexivity. Qed.

Lemma keys_get {V} (d : Dict.t V) k :
  In k (Dict.keys d) <-> exists v, Dict.get k d = Some v.
Proof.
  unfold Dict.keys. induction d as [|[k' v'] d IH]; simpl.
  - split; [intros []|intros [? [=]]].
  - destruct (String.eqb_spec k k') as [->|Hne].
    + split; eauto.
    + rewrite IH. split; [intros [?|?]; [congruence|auto]|auto].
Qed.

Lemma added_files_spec old new k :
  In k (files_added (get_file_level_changes (Some old) new))
  <-> In k (Dict.keys new) /\ ~ In k (Dict.keys old).
Proof.
  simpl. rewrite <- !list_elem_of_In, elem_of_elements, elem_of_difference,
    !elem_of_list_to_set. reflexivity.
Qed.

Lemma modified_files_spec old new k :
  In k (files_modified (get_file_level_changes (Some old) new)) <->
  exists old_file new_file,
    Dict.get k old = Some old_file /\
    Dict.get k new = Some new_file /\
    (count (functions old_file) <> count (functions new_file) \/
     count (classes old_file) <> count (classes new_file)).
Proof.
  simpl. rewrite in_filter_elements, elem_of_intersection,
    !elem_of_list_to_set, !list_elem_of_In, !keys_get.
  unfold counts_differ. split.
  - intros [[[fo Ho] [fn Hn]] Hc]. rewrite Ho, Hn in Hc.
    exists fo, fn. split; auto. split; auto.
    apply orb_true_iff in Hc as [Hc|Hc];
      apply negb_true_iff, Nat.eqb_neq in Hc; auto.
  - intros (fo & fn & Ho & Hn & Hc). rewrite Ho, Hn.
    split; [eauto|]. apply orb_true_iff.
    destruct Hc as [Hc|Hc]; [left|right];
      apply negb_true_iff, Nat.eqb_neq; exact Hc.
Qed.

(** The three lists of [get_file_level_changes] against a prior mapping:
    added are the keys of the new mapping missing from the old one, removed
    the keys of the old one missing from the new one, modified the keys of
    both whose number of functions or number of classes differs.  No list
    repeats a path, and no path is in two lists.  A file that keeps its two
    counts is never reported as modified, whatever else changed in it. *)
Theorem file_changes_characterised (old new : Dict.t FileRecord) :
  let fc := get_file_level_changes (Some old) new in
  (forall k, In k (files_added fc) <->
             In k (Dict.keys new) /\ ~ In k (Dict.keys old)) /\
  (forall k, In k (files_removed fc) <->
             In k (Dict.keys old) /\ ~ In k (Dict.keys new)) /\
  (forall k, In k (files_modified fc) <->
             exists old_file new_file,
               Dict.get k old = Some old_file /\
               Dict.get k new = Some new_file /\
               (count (functions old_file) <> count (functions new_file) \/
                count (classes old_file) <> count (classes new_file))) /\
  NoDup (files_added fc) /\ NoDup (files_removed fc) /\
  NoDup (files_modified fc) /\
  (forall k, ~ (In k (files_added fc) /\ In k (files_removed fc))) /\
  (forall k, In k (files_modified fc) ->
             ~ In k (files_added fc) /\ ~ In k (files_removed fc)).
Proof.
  intros fc.
  split; [intros; apply added_files_spec|].
  split; [intros; apply removed_files_spec|].
  split; [intros; apply modified_files_spec|].
  split; [unfold fc; simpl; apply NoDup_elements|].
  split; [unfold fc; simpl; apply NoDup_elements|].
  split.
  { unfold fc. simpl. apply NoDup_ListNoDup, List.NoDup_filter, NoDup_ListNoDup,
      NoDup_elements. }
  split.
  - intros k [Ha Hr]. apply added_files_spec in Ha.
    apply removed_files_spec in Hr. tauto.
  - intros k Hm. apply modified_files_spec in Hm as (fo & fn & Ho & Hn & _).
    assert (In k (Dict.keys old)) by (apply keys_get; eauto).
    assert (In k (Dict.keys new)) by (apply keys_get; eauto).
    unfold fc. rewrite added_files_spec, removed_files_spec. tauto.
Qed.

Lemma nothing_in {A} (l : list A) : (forall x, ~ In x l) -> l = [].
Proof. destruct l as [|x l]; auto. intros H. destruct (H x). now left. Qed.

(** Two mappings with the same paths and, path by path, the same number of
    functions and of classes show no change at all: in particular a
    snapshot compared with itself. *)
Theorem same_counts_no_change (old new : Dict.t FileRecord) :
  (forall k, In k (Dict.keys old) <-> In k (Dict.keys new)) ->
  (forall k old_file new_file,
     Dict.get k old = Some old_file -> Dict.get k new = Some new_file ->
     count (functions old_file) = count (functions new_file) /\
     count (classes old_file) = count (classes new_file)) ->
  get_file_level_changes (Some old) new = mkFileChanges [] [] [].
Proof.
  intros Hkeys Hcounts.
  assert (Ha : files_added (get_file_level_changes (Some old) new) = []).
  { apply nothing_in. intros k Hk. apply added_files_spec in Hk as [H1 H2].
    apply H2, Hkeys, H1. }
  assert (Hr : files_removed (get_file_level_changes (Some old) new) = []).
  { apply nothing_in. intros k Hk. apply removed_files_spec in Hk as [H1 H2].
    apply H2, Hkeys, H1. }
  assert (Hm : files_modified (get_file_level_changes (Some old) new) = []).
  { apply nothing_in. intros k Hk.
    apply modified_files_spec in Hk as (fo & fn & Ho & Hn & Hc).
    destruct (Hcounts k fo fn Ho Hn). tauto. }
  destruct (get_file_level_changes (Some old) new). simpl in *. congruence.
Qed.

Lemma same_counts_no_change_witness :
  get_file_level_changes (Some (files (snapshot 3 1 0)))
                         (files (snapshot 3 2 0))
  = mkFileChanges [] [] [].
Proof.
  apply same_counts_no_change.
  - reflexivity.
  - intros k fo fn Ho Hn. simpl in Ho, Hn.
    rewrite Ho in Hn. injection Hn as <-. auto.
Defined.

End ChangesMore.

Module LogMore.
Import Records World Backup Pipeline AnalyzerExamples RotationExamples.
Import AnalyzerFacts PipelineFacts.
Local Open Scope world_scope.

(** Appending to the log keeps at most 100 entries, the new one last; what
    is kept is the tail of the old entries followed by the new one, and
    below the cap nothing is dropped. *)
Theorem log_keeps_the_latest (l : list BackupEntry) (e : BackupEntry) :
  let l' := last_100 (l ++ [e])%list in
  (length l' <= 100)%nat /\
  last l' = Some e /\
  l' `suffix_of` (l ++ [e])%list /\
  ((length l < 100)%nat -> l' = (l ++ [e])%list) /\
  ((100 <= length l)%nat -> length l' = 100%nat).
Proof.
  unfold last_100. rewrite length_app. simpl.
  destruct (100 <? length l + 1)%nat eqn:E.
  - apply Nat.ltb_lt in E. split; [rewrite length_skipn, length_app; simpl; lia|].
    split.
    + rewrite skipn_app. rewrite last_app.
      replace (length l + 1 - 100 - length l)%nat with O by lia. reflexivity.
    + split; [apply suffix_drop|]. split; [lia|].
      intros _. rewrite length_skipn, length_app. simpl. lia.
  - apply Nat.ltb_ge in E. split; [rewrite length_app; simpl; lia|].
    split; [apply last_snoc|]. split; [reflexivity|]. split; [auto|lia].
Qed.

Section WithEnvironment.

Variable fault : Op -> option Failure.
Variable now_iso : string.
Variable cwd : string.

(** Loading the log never fails and writes nothing.  It returns the
    document in the log file when that file is there, readable and
    decodable, and a fresh log without entries in every other case. *)
Theorem load_backup_log_falls_back backup_dir w :
  exists c w',
    load_backup_log fault now_iso cwd backup_dir w = (Ok c, w') /\
    fs w' = fs w /\
    ((exists t, fs w !! (backup_dir +:+ "/" +:+ log_file_name)
                = Some (mkFileNode c t) /\
                fault (OpRead (backup_dir +:+ "/" +:+ log_file_name)) = None /\
                forall text, c <> CRaw text) \/
     (c = CLog (mkLog now_iso cwd []) /\
      (fs w !! (backup_dir +:+ "/" +:+ log_file_name) = None \/
       is_Some (fault (OpRead (backup_dir +:+ "/" +:+ log_file_name))) \/
       exists text t, fs w !! (backup_dir +:+ "/" +:+ log_file_name)
                      = Some (mkFileNode (CRaw text) t)))).
Proof.
  unfold load_backup_log. set (p := backup_dir +:+ "/" +:+ log_file_name).
  unfold bind at 1, path_exists.
  destruct (fs w !! p) as [[c t]|] eqn:Efs.
  - rewrite bool_decide_eq_true_2 by eauto. simpl.
    unfold try_except, read_json.
    destruct (fault (OpRead p)) as [f|] eqn:Ef.
    + simpl. unfold bind, print, ret. simpl.
      do 2 eexists. split; [reflexivity|]. split; [reflexivity|].
      right. split; [reflexivity|]. right; left. eauto.
    + rewrite Efs. destruct c as [idx|log|text]; simpl.
      * do 2 eexists. split; [reflexivity|]. split; [reflexivity|].
        left. exists t. repeat split; auto; discriminate.
      * do 2 eexists. split; [reflexivity|]. split; [reflexivity|].
        left. exists t. repeat split; auto; discriminate.
      * unfold bind, print, ret. simpl.
        do 2 eexists. split; [reflexivity|]. split; [reflexivity|].
        right. split; [reflexivity|]. right; right. eauto.
  - rewrite bool_decide_eq_false_2 by (intros [? ?]; discriminate). simpl.
    unfold ret. do 2 eexists. split; [reflexivity|]. split; [reflexivity|].
    right. auto.
Qed.

(** What is saved is what is loaded next: a log written by
    [save_backup_log] comes back from [load_backup_log], provided the write
    and the read do not fail. *)
Theorem log_round_trip backup_dir log w :
  fault (OpWrite (backup_dir +:+ "/" +:+ log_file_name)) = None ->
  fault (OpRead (backup_dir +:+ "/" +:+ log_file_name)) = None ->
  exists w',
    (save_backup_log fault backup_dir (CLog log) ;;;
     load_backup_log fault now_iso cwd backup_dir) w = (Ok (CLog log), w') /\
    stdout w' = stdout w.
Proof.
  intros Hw Hr. unfold bind at 1, save_backup_log, try_except, write_file.
  rewrite Hw. unfold load_backup_log, bind, path_exists. simpl.
  rewrite lookup_insert_eq. rewrite bool_decide_eq_true_2 by eauto. simpl.
  unfold try_except, read_json. rewrite Hr. simpl.
  rewrite lookup_insert_eq. eauto.
Qed.

(** Completing the log never raises, whatever fails.  Without a backup
    object it does nothing at all; with one, the only file it can change is
    the log file of the object's backup directory. *)
Theorem complete_backup_log_is_contained backup change_data success w :
  exists w',
    complete_backup_log fault backup change_data success w = (Ok tt, w') /\
    match backup with
    | BInfo b =>
        forall q, q <> _backup_dir b +:+ "/" +:+ log_file_name ->
                  fs w' !! q = fs w !! q
    | _ => w' = w
    end.
Proof.
  destruct backup as [|p|b]; simpl; unfold ret; eauto.
  unfold try_except, bind, log_backup_creation, save_backup_log, try_except,
    write_file, raise, ret, print.
  destruct (_log_data b); simpl; eauto.
  destruct (fault (OpWrite _)) as [f|] eqn:E; simpl.
  - eexists. split; [reflexivity|]. simpl. intros q Hq.
    apply leave_residue_other. congruence.
  - eexists. split; [reflexivity|]. simpl. intros q Hq.
    now rewrite lookup_insert_ne by congruence.
Qed.

End WithEnvironment.

Lemma log_round_trip_witness :
  exists w',
    (save_backup_log no_fault backup_dir_name empty_log ;;;
     load_backup_log no_fault "2025-01-03T00:00:00" "/project" backup_dir_name)
      fresh
    = (Ok empty_log, w') /\ stdout w' = stdout fresh.
Proof.
  apply (log_round_trip no_fault "2025-01-03T00:00:00" "/project"
           backup_dir_name (mkLog "2025-01-01T00:00:00" "/project" []) fresh);
    reflexivity.
Defined.

End LogMore.

(** ** More on rotation *)

Module RotationMore.
Import Records World Backup Pipeline RotationWords RotationExamples.
Import AnalyzerFacts RotationFacts PipelineFacts.
Local Open Scope world_scope.

Lemma filter_map_fst {A B} (P : A -> bool) (l : list (A * B)) :
  List.filter P (map fst l) = map fst (List.filter (fun e => P e.1) l).
Proof.
  induction l as [|[a b] l IH]; simpl; auto.
  destruct (P a); simpl; now rewrite IH.
Qed.

Lemma glob_listing dir w : glob dir backup_pattern w = map fst (listing dir w).
Proof.
  unfold glob, listing. rewrite filter_map_fst, map_map. reflexivity.
Qed.

Lemma listing_in_fs dir w p m :
  In (p, m) (listing dir w) ->
  matches_in dir backup_pattern p = true /\
  exists f, fs w !! p = Some f /\ mtime f = m.
Proof.
  unfold listing. intros H. apply in_map_iff in H as ([p' f] & [= <- <-] & H).
  apply filter_In in H as [H Hm]. simpl in Hm. split; auto.
  exists f. split; auto.
  apply list_elem_of_In, elem_of_map_to_list in H. exact H.
Qed.

Lemma listing_nodup dir w : NoDup (map fst (listing dir w)).
Proof.
  rewrite <- glob_listing. unfold glob.
  apply NoDup_ListNoDup, List.NoDup_filter, NoDup_ListNoDup.
  apply NoDup_fst_map_to_list.
Qed.

Lemma in_skipn {A} n (l : list A) x : In x (skipn n l) -> In x l.
Proof. intros H. rewrite <- (firstn_skipn n l). apply in_or_app. now right. Qed.

Lemma in_firstn {A} n (l : list A) x : In x (firstn n l) -> In x l.
Proof. intros H. rewrite <- (firstn_skipn n l). apply in_or_app. now left. Qed.

Section WithFaults.

Variable fault : Op -> option Failure.

Lemma map_m_cons {A B} (f : A -> M B) x l w :
  map_m f (x :: l) w
  = match f x w with
    | (Ok y, w1) =>
        match map_m f l w1 with
        | (Ok ys, w2) => (Ok (y :: ys), w2)
        | (Raise e, w2) => (Raise e, w2)
        end
    | (Raise e, w1) => (Raise e, w1)
    end.
Proof.
  simpl. unfold bind. destruct (f x w) as [[y|e] w1]; auto.
Qed.

Lemma stat_key p w :
  exists r,
    (f <- stat fault p ;; ret (p, mtime f)) w = (r, w) /\
    match r with
    | Ok y => y.1 = p
    | Raise e => is_Exception e = true
    end.
Proof.
  unfold bind, stat. destruct (fault (OpStat p)) as [f|].
  - eexists (Raise _). split; reflexivity.
  - destruct (fs w !! p) as [file|].
    + eexists (Ok _). split; reflexivity.
    + eexists (Raise _). split; reflexivity.
Qed.

(** Reading the modification times changes nothing; a failure is an
    ordinary exception. *)
Lemma stat_all l : forall w,
  exists r,
    map_m (fun p => f <- stat fault p ;; ret (p, mtime f)) l w = (r, w) /\
    match r with
    | Ok keyed => map fst keyed = l
    | Raise e => is_Exception e = true
    end.
Proof.
  induction l as [|p l IH]; intros w.
  - exists (Ok []). split; reflexivity.
  - rewrite map_m_cons.
    destruct (stat_key p w) as ([y|e] & -> & Hy).
    + destruct (IH w) as ([keyed|e] & -> & Hr).
      * eexists (Ok _). split; [reflexivity|]. simpl. now rewrite Hy, Hr.
      * exists (Raise e). split; [reflexivity|exact Hr].
    + exists (Raise e). split; [reflexivity|exact Hy].
Qed.

Lemma unlink_result p w r w' :
  unlink fault p w = (r, w') ->
  match r with
  | Ok _ => fs w' = delete p (fs w)
  | Raise e => is_Exception e = true /\ w' = w
  end.
Proof.
  unfold unlink. destruct (fault (OpUnlink p)).
  - unfold os_error, raise. intros [= <- <-]. auto.
  - destruct (fs w !! p); intros [= <- <-]; auto.
Qed.

Lemma for_each_cons {A} (body : A -> M unit) x l w :
  for_each (x :: l) body w
  = match body x w with
    | (Ok _, w1) => for_each l body w1
    | (Raise e, w1) => (Raise e, w1)
    end.
Proof. reflexivity. Qed.

Lemma for_each_deleting {A} (body : A -> M unit) (touch : A -> string) l :
  (forall x w, exists w',
      body x w = (Ok tt, w') /\
      (fs w' = fs w \/ fs w' = delete (touch x) (fs w))) ->
  forall w, exists w',
    for_each l body w = (Ok tt, w') /\
    forall q, fs w' !! q = fs w !! q \/
              (fs w' !! q = None /\ In q (map touch l)).
Proof.
  intros Hbody. induction l as [|x l IH]; intros w.
  - exists w. split; [reflexivity|]. auto.
  - rewrite for_each_cons. destruct (Hbody x w) as (w1 & -> & Hfs).
    destruct (IH w1) as (w' & -> & Hq).
    exists w'. split; [reflexivity|]. intros q.
    destruct (Hq q) as [H|[H Hin]]; [|right; split; [auto|now right]].
    destruct Hfs as [Hfs|Hfs]; rewrite Hfs in H; auto.
    destruct (decide (touch x = q)) as [<-|Hne].
    + rewrite lookup_delete_eq in H. right. split; [auto|now left].
    + rewrite lookup_delete_ne in H by done. auto.
Qed.

Lemma delete_step dir (old_backup : string * Z) w :
  exists w',
    (let name := default "" (child_name dir old_backup.1) in
     try_except
       (unlink fault old_backup.1 ;;; print (MsgRemovedOldBackup name))
       (fun e => print (MsgCouldNotRemove name e))) w = (Ok tt, w') /\
    (fs w' = fs w \/ fs w' = delete old_backup.1 (fs w)).
Proof.
  simpl. unfold try_except, bind.
  destruct (unlink fault old_backup.1 w) as [[[]|e] w1] eqn:E;
    apply unlink_result in E.
  - unfold print. eexists. split; [reflexivity|]. simpl. auto.
  - destruct E as [-> ->]. unfold print. eexists. split; [reflexivity|].
    simpl. auto.
Qed.

(** Rotation never raises, whatever fails, and never creates or rewrites a
    file: a path either keeps what it held or, if it is a file of the
    directory that matches the pattern, is gone.  With no more matching
    files than the cap, nothing is deleted. *)
Lemma rotation_frame dir max_backups w :
  exists w',
    manage_backup_rotation fault dir max_backups w = (Ok tt, w') /\
    (forall q, fs w' !! q = fs w !! q \/
               (fs w' !! q = None /\ matches_in dir backup_pattern q = true)) /\
    ((length (glob dir backup_pattern w) <= max_backups)%nat -> fs w' = fs w).
Proof.
  unfold manage_backup_rotation. unfold try_except at 1. unfold bind at 1.
  destruct (stat_all (glob dir backup_pattern w) w) as ([keyed|e] & -> & Hr).
  - assert (Hlen : length (sort_newest_first keyed)
                   = length (glob dir backup_pattern w)).
    { rewrite (Permutation_length (sort_permutation keyed)), <- Hr.
      now rewrite length_map. }
    cbv beta zeta.
    destruct (max_backups <? length (sort_newest_first keyed))%nat eqn:E.
    + destruct (for_each_deleting
                  (fun old_backup : string * Z =>
                     let name := default "" (child_name dir old_backup.1) in
                     try_except
                       (unlink fault old_backup.1 ;;;
                        print (MsgRemovedOldBackup name))
                       (fun e => print (MsgCouldNotRemove name e)))
                  fst (skipn max_backups (sort_newest_first keyed))
                  (delete_step dir) w) as (w' & Hrun & Hq).
      replace (for_each _ _ w) with (@Ok unit tt, w')
        by (symmetry; exact Hrun).
      exists w'. split; [reflexivity|]. split.
      * intros q. destruct (Hq q) as [H|[H Hin]]; auto. right. split; auto.
        assert (Hg : In q (glob dir backup_pattern w)).
        { rewrite <- Hr. apply in_map_iff in Hin as (e & <- & Hin).
          apply in_map. apply (Permutation_in _ (sort_permutation keyed)).
          eapply in_skipn. exact Hin. }
        unfold glob in Hg. apply filter_In in Hg. tauto.
      * intros Hle. apply Nat.ltb_lt in E. lia.
    + unfold ret. exists w. split; [reflexivity|]. auto.
  - rewrite Hr. unfold print. eexists. split; [reflexivity|]. simpl. auto.
Qed.

(** Rotation never raises, whatever fails, and is confined to the backups:
    every path holds afterwards what it held before, or is gone and then
    matches [PROJECT_INDEX_*.json] in the backup directory.  With no more
    than [max_backups] matching files it changes no file at all. *)
Theorem rotation_only_deletes_backups dir max_backups w :
  exists w',
    manage_backup_rotation fault dir max_backups w = (Ok tt, w') /\
    (forall q, fs w' !! q = fs w !! q \/
               (fs w' !! q = None /\ matches_in dir backup_pattern q = true)) /\
    ((length (glob dir backup_pattern w) <= max_backups)%nat -> fs w' = fs w).
Proof. apply rotation_frame. Qed.

Lemma stat_one p f w :
  fault (OpStat p) = None -> fs w !! p = Some f ->
  (f <- stat fault p ;; ret (p, mtime f)) w = (Ok (p, mtime f), w).
Proof. intros Hf Hfs. unfold bind, stat. now rewrite Hf, Hfs. Qed.

Lemma stat_listed (l : list (string * Z)) w :
  (forall e, In e l -> fault (OpStat e.1) = None /\
                       exists f, fs w !! e.1 = Some f /\ mtime f = e.2) ->
  map_m (fun p => f <- stat fault p ;; ret (p, mtime f)) (map fst l) w
  = (Ok l, w).
Proof.
  induction l as [|[p m] l IH]; intros H; [reflexivity|].
  simpl map. rewrite map_m_cons.
  destruct (H (p, m)) as (Hf & f & Hfs & Hm); [now left|]. simpl in *.
  rewrite (stat_one p f w Hf Hfs).
  rewrite IH by (intros; apply H; now right). now rewrite Hm.
Qed.

Lemma for_each_deleting_all {A} (body : A -> M unit) (touch : A -> string) l :
  (forall x w, In x l -> is_Some (fs w !! touch x) ->
     exists w', body x w = (Ok tt, w') /\ fs w' = delete (touch x) (fs w)) ->
  NoDup (map touch l) ->
  forall w, (forall x, In x l -> is_Some (fs w !! touch x)) ->
  exists w',
    for_each l body w = (Ok tt, w') /\
    (forall q, In q (map touch l) -> fs w' !! q = None) /\
    (forall q, ~ In q (map touch l) -> fs w' !! q = fs w !! q).
Proof.
  induction l as [|x l IH]; intros Hbody Hnd w Hex.
  - exists w. split; [reflexivity|]. split; [intros q []|auto].
  - rewrite for_each_cons.
    destruct (Hbody x w) as (w1 & -> & Hfs); [now left|apply Hex; now left|].
    simpl in Hnd. inversion Hnd as [|? ? Hnotin Hnd']; subst.
    rewrite list_elem_of_In in Hnotin.
    destruct (IH (fun y w Hy => Hbody y w (or_intror Hy)) Hnd' w1)
      as (w' & -> & Hgone & Hkept).
    { intros y Hy. rewrite Hfs, lookup_delete_ne; [apply Hex; now right|].
      intros Heq. apply Hnotin. rewrite Heq. now apply in_map. }
    exists w'. split; [reflexivity|]. split.
    + intros q [<-|Hq]; auto.
      rewrite Hkept by exact Hnotin. rewrite Hfs. apply lookup_delete_eq.
    + intros q Hq. simpl in Hq. rewrite Hkept by tauto. rewrite Hfs.
      apply lookup_delete_ne. tauto.
Qed.

Lemma delete_step_ok dir (old_backup : string * Z) w :
  fault (OpUnlink old_backup.1) = None -> is_Some (fs w !! old_backup.1) ->
  exists w',
    (let name := default "" (child_name dir old_backup.1) in
     try_except
       (unlink fault old_backup.1 ;;; print (MsgRemovedOldBackup name))
       (fun e => print (MsgCouldNotRemove name e))) w = (Ok tt, w') /\
    fs w' = delete old_backup.1 (fs w).
Proof.
  intros Hf [file Hfs]. simpl. unfold try_except, bind, unlink.
  rewrite Hf, Hfs. unfold print. simpl. eauto.
Qed.

Lemma listed dir w q f :
  fs w !! q = Some f -> matches_in dir backup_pattern q = true ->
  In (q, mtime f) (listing dir w).
Proof.
  intros Hfs Hm. unfold listing.
  apply in_map_iff. exists (q, f). split; auto.
  apply filter_In. split; auto.
  apply list_elem_of_In, elem_of_map_to_list. exact Hfs.
Qed.

(** When reading times and deleting do not fail, rotation leaves exactly the
    newest: the matching files beyond the first [max_backups] in the ranking
    (newest first, listing order among equals) are gone, every other path
    holds what it held, at most [max_backups] matching files are left, and
    none of them is older than a deleted one. *)
Theorem rotation_keeps_the_newest dir max_backups w :
  (forall p, fault (OpStat p) = None) ->
  (forall p, fault (OpUnlink p) = None) ->
  exists w',
    manage_backup_rotation fault dir max_backups w = (Ok tt, w') /\
    (forall q, In q (doomed dir max_backups w) -> fs w' !! q = None) /\
    (forall q, ~ In q (doomed dir max_backups w) -> fs w' !! q = fs w !! q) /\
    (length (spared dir max_backups w) <= max_backups)%nat /\
    (forall q, matches_in dir backup_pattern q = true ->
               is_Some (fs w' !! q) -> In q (spared dir max_backups w)) /\
    (forall k r,
       In k (firstn max_backups (sort_newest_first (listing dir w))) ->
       In r (skipn max_backups (sort_newest_first (listing dir w))) ->
       r.2 <= k.2).
Proof.
  intros Hstat Hunlink.
  set (ranked := sort_newest_first (listing dir w)).
  assert (Hin : forall e, In e ranked -> In e (listing dir w)).
  { intros e. apply Permutation_in, sort_permutation. }
  assert (Hrun : exists w',
    manage_backup_rotation fault dir max_backups w = (Ok tt, w') /\
    (forall q, In q (map fst (skipn max_backups ranked)) -> fs w' !! q = None) /\
    (forall q, ~ In q (map fst (skipn max_backups ranked)) ->
               fs w' !! q = fs w !! q)).
  { unfold manage_backup_rotation. unfold try_except at 1. unfold bind at 1.
    rewrite glob_listing, stat_listed.
    2:{ intros [p m] He. split; [apply Hstat|].
        now apply listing_in_fs in He as [_ He]. }
    cbv beta zeta. fold ranked.
    destruct (max_backups <? length ranked)%nat eqn:E.
    - destruct (for_each_deleting_all
                  (fun old_backup : string * Z =>
                     let name := default "" (child_name dir old_backup.1) in
                     try_except
                       (unlink fault old_backup.1 ;;;
                        print (MsgRemovedOldBackup name))
                       (fun e => print (MsgCouldNotRemove name e)))
                  fst (skipn max_backups ranked)) with (w := w)
        as (w' & Hloop & Hgone & Hkept).
      + intros x w0 _ Hx. apply delete_step_ok; auto.
      + apply (NoDup_ListNoDup (map fst (skipn max_backups ranked))).
        rewrite <- (firstn_skipn max_backups ranked) in Hin.
        assert (Hnd : List.NoDup (map fst ranked)).
        { apply NoDup_ListNoDup. unfold ranked.
          rewrite (Permutation_map fst (sort_permutation (listing dir w))).
          apply listing_nodup. }
        rewrite <- (firstn_skipn max_backups ranked), map_app in Hnd.
        apply List.NoDup_app_remove_l in Hnd. exact Hnd.
      + intros [p m] He.
        apply in_skipn, Hin, listing_in_fs in He as [_ (f & Hf & _)].
        simpl. rewrite Hf. eauto.
      + replace (for_each _ _ w) with (@Ok unit tt, w')
          by (symmetry; exact Hloop).
        eauto.
    - apply Nat.ltb_ge in E. rewrite skipn_all2 by exact E.
      exists w. split; [reflexivity|]. split; [intros q []|auto]. }
  destruct Hrun as (w' & Hrun & Hgone & Hkept).
  exists w'. split; [exact Hrun|]. split; [exact Hgone|].
  split; [exact Hkept|]. split.
  { unfold spared. rewrite length_map. apply firstn_le_length. }
  split.
  - intros q Hm [f Hf]. unfold spared. fold ranked.
    destruct (in_dec string_dec q (map fst (skipn max_backups ranked)))
      as [Hd|Hd]; [rewrite Hgone in Hf by exact Hd; discriminate|].
    rewrite Hkept in Hf by exact Hd.
    assert (Hl : In (q, mtime f) ranked).
    { apply (Permutation_in _ (Permutation_sym (sort_permutation _))).
      now apply listed. }
    rewrite <- (firstn_skipn max_backups ranked) in Hl.
    apply in_app_or in Hl as [Hl|Hl].
    + apply in_map_iff. exists (q, mtime f). auto.
    + destruct Hd. apply in_map_iff. exists (q, mtime f). auto.
  - intros k r Hk Hr.
    apply (sorted_split (firstn max_backups ranked) (skipn max_backups ranked));
      auto.
    rewrite firstn_skipn. apply sort_sorted.
Qed.

End WithFaults.

Lemma rotation_keeps_the_newest_witness :
  exists w',
    manage_backup_rotation no_fault backup_dir_name 2 crowded = (Ok tt, w') /\
    fs w' !! log_path = None.
Proof.
  destruct (rotation_keeps_the_newest no_fault backup_dir_name 2 crowded)
    as (w' & Hrun & Hgone & _); [reflexivity | reflexivity |].
  exists w'. split; [exact Hrun|]. apply Hgone. vm_compute. auto.
Defined.

End RotationMore.

(** ** More on the atomic save, the backup and the default action *)

Module PipelineMore.
Import Records World Backup Analyzer Pipeline RotationWords.
Import AnalyzerExamples RotationExamples.
Import AnalyzerFacts RotationFacts PipelineFacts RotationMore.
Local Open Scope world_scope.

Lemma bind_apply {A B} (m : M A) (k : A -> M B) w :
  bind m k w
  = match m w with
    | (Ok a, w') => k a w'
    | (Raise e, w') => (Raise e, w')
    end.
Proof. reflexivity. Qed.

Lemma try_apply {A} (m : M A) (h : Exn -> M A) w :
  try_except m h w
  = match m w with
    | (Raise e, w') => if is_Exception e then h e w' else (Raise e, w')
    | r => r
    end.
Proof. reflexivity. Qed.

Section WithEnvironment.

Variable fault : Op -> option Failure.
Variable size_of : Content -> Z.
Variable stamp : string.
Variable now_iso : string.
Variable cwd : string.
Variable dumps_len : Index -> Z.
Variable user : Input.

(** When the temporary write and the replace succeed, the save returns
    [True]: the final path holds the new snapshot, the temporary file is
    gone, and no other path is touched, whatever backup it was given. *)
Theorem save_replaces_the_snapshot index out backup w :
  fault (OpWrite (with_suffix ".json.tmp" out)) = None ->
  fault (OpReplace (with_suffix ".json.tmp" out) out) = None ->
  with_suffix ".json.tmp" out <> out ->
  exists w',
    safe_save_index fault index out backup w = (Ok true, w') /\
    fs w' !! out = Some (mkFileNode (CIndex index) (clock w)) /\
    fs w' !! with_suffix ".json.tmp" out = None /\
    (forall q, q <> out -> q <> with_suffix ".json.tmp" out ->
               fs w' !! q = fs w !! q) /\
    stdout w' = (stdout w ++ [MsgSaved out])%list.
Proof.
  intros Hw Hr Hne. unfold safe_save_index, try_except.
  unfold bind at 1, write_file. rewrite Hw.
  unfold bind at 1, replace. rewrite Hr. simpl.
  rewrite lookup_insert_eq. unfold bind, print, ret. simpl.
  eexists. split; [reflexivity|]. simpl.
  split; [apply lookup_insert_eq|].
  split; [rewrite lookup_insert_ne by congruence; apply lookup_delete_eq|].
  split; [|reflexivity].
  intros q Hq Hq'.
  rewrite lookup_insert_ne, lookup_delete_ne, lookup_insert_ne by congruence.
  reflexivity.
Qed.

Lemma save_is_all_or_nothing index out backup w r w' :
  with_suffix ".json.tmp" out <> out ->
  (forall p, backup <> BPath p) ->
  safe_save_index fault index out backup w = (r, w') ->
  (r = Ok true /\ fs w' !! out = Some (mkFileNode (CIndex index) (clock w))) \/
  (r <> Ok true /\ fs w' !! out = fs w !! out).
Proof.
  intros Hne Hb. unfold safe_save_index, try_except.
  destruct (save_body_cases fault index out w Hne) as
    [(w1 & -> & Hout & Hframe)|(e & w1 & -> & He & Hframe)].
  - intros [= <- <-]. auto.
  - rewrite He. unfold bind at 1, print at 1. unfold bind at 1.
    destruct backup as [|p|b]; [| now destruct (Hb p) |]; simpl.
    + unfold ret. intros [= <- <-]. right. split; [discriminate|].
      simpl. apply Hframe. congruence.
    + unfold raise. intros [= <- <-]. right. split; [discriminate|].
      simpl. apply Hframe. congruence.
Qed.

(** With the values [main] hands over ([None] or a backup object) the save
    is all or nothing, whatever fails: either it returns [True] and the
    final path holds the new snapshot, or it does not and the final path
    holds what it held.  It is never left with a partial write. *)
Theorem save_never_half_writes index out backup w r w' :
  with_suffix ".json.tmp" out <> out ->
  (forall p, backup <> BPath p) ->
  safe_save_index fault index out backup w = (r, w') ->
  (r = Ok true /\ fs w' !! out = Some (mkFileNode (CIndex index) (clock w))) \/
  (r <> Ok true /\ fs w' !! out = fs w !! out).
Proof. apply save_is_all_or_nothing. Qed.

Lemma load_backup_log_frame backup_dir w :
  exists c w',
    load_backup_log fault now_iso cwd backup_dir w = (Ok c, w') /\ fs w' = fs w.
Proof.
  unfold load_backup_log. unfold bind at 1, path_exists.
  destruct (bool_decide _); simpl; [|unfold ret; eauto].
  unfold try_except.
  destruct (read_json fault _ w) as [[c|e] w1] eqn:E.
  - apply read_json_world in E as ->. eauto.
  - destruct (read_json_raises _ _ _ _ _ E) as [-> ->].
    unfold bind, print, ret. simpl. eauto.
Qed.

(** What [create_backup] can do, whatever fails. *)
Lemma create_backup_cases index_path max_backups w :
  Py.startswith (backup_dir_name +:+ "/") index_path = false ->
  (exists f, fault (OpMkdir backup_dir_name) = Some f /\
     create_backup fault size_of stamp now_iso cwd index_path max_backups w
     = (Raise (mkExn OSError (failure_msg f)), w)) \/
  (fault (OpMkdir backup_dir_name) = None /\
   exists backup w',
     create_backup fault size_of stamp now_iso cwd index_path max_backups w
     = (Ok backup, w') /\
     fs w' !! index_path = fs w !! index_path /\
     (forall p, backup <> BPath p) /\
     (fs w !! index_path = None -> backup = BNone /\ fs w' = fs w) /\
     (forall b, backup = BInfo b ->
        path b = backup_dir_name +:+ "/" +:+ ("PROJECT_INDEX_" +:+ stamp +:+ ".json") /\
        _backup_dir b = backup_dir_name /\
        backup_filename (_backup_info b) = "PROJECT_INDEX_" +:+ stamp +:+ ".json" /\
        operation_success (_backup_info b) = None /\
        is_Some (fs w !! index_path) /\
        (fs w' !! path b = fs w !! index_path \/ fs w' !! path b = None))).
Proof.
  intros Hout.
  assert (Hchild : child_name backup_dir_name index_path = None)
    by (unfold child_name; now rewrite Hout).
  unfold create_backup. cbv zeta.
  set (name := "PROJECT_INDEX_" +:+ stamp +:+ ".json").
  set (bp := backup_dir_name +:+ "/" +:+ name).
  rewrite bind_apply. unfold mkdir.
  destruct (fault (OpMkdir backup_dir_name)) as [f|] eqn:Em.
  - left. exists f. split; auto.
  - right. split; auto. unfold ret at 1. rewrite bind_apply.
    destruct (load_backup_log_frame backup_dir_name w) as (c & w0 & -> & Hfs0).
    rewrite bind_apply. unfold path_exists. rewrite Hfs0.
    assert (Hbp : bp <> index_path).
    { intros <-. revert Hout. subst bp. clear.
      assert (H : Py.startswith (backup_dir_name +:+ "/")
                    (backup_dir_name +:+ "/" +:+ name) = true) by reflexivity.
      rewrite H. discriminate. }
    assert (Hnm : matches_in backup_dir_name backup_pattern index_path = false).
    { unfold matches_in. now rewrite Hchild. }
    destruct (fs w !! index_path) as [file|] eqn:Efs.
    + rewrite bool_decide_eq_true_2 by eauto. cbn [negb].
      rewrite try_apply, bind_apply. unfold copy2.
      destruct (fault (OpCopy index_path bp)) as [f|] eqn:Ec.
      * cbn [is_Exception exn_class]. rewrite bind_apply. unfold print, ret.
        do 2 eexists. split; [reflexivity|]. cbn [fs].
        split; [(rewrite leave_residue_other by exact Hbp); rewrite Hfs0; exact Efs|].
        split; [discriminate|]. split; [discriminate|]. discriminate.
      * rewrite Hfs0, Efs. rewrite bind_apply. unfold stat.
        destruct (fault (OpStat bp)) as [f|] eqn:Es.
        -- unfold os_error, raise. cbn [is_Exception exn_class].
           rewrite bind_apply. unfold print, ret.
           do 2 eexists. split; [reflexivity|]. cbn [fs with_fs].
           split; [(rewrite lookup_insert_ne by exact Hbp); rewrite ?Hfs0; exact Efs|].
           split; [discriminate|]. split; [discriminate|]. discriminate.
        -- cbn [fs with_fs]. rewrite lookup_insert_eq.
           rewrite bind_apply. unfold print at 1. rewrite bind_apply.
           match goal with |- context [manage_backup_rotation _ _ _ ?w1] =>
             destruct (rotation_frame fault backup_dir_name max_backups w1)
               as (w2 & -> & Hq & _)
           end.
           unfold ret. do 2 eexists. split; [reflexivity|].
           cbn [fs with_fs] in Hq.
           split.
           { destruct (Hq index_path) as [H|[_ H]]; [|congruence].
             rewrite H. rewrite lookup_insert_ne by exact Hbp. rewrite ?Hfs0. exact Efs. }
           split; [discriminate|]. split; [discriminate|].
           intros b [= <-]. cbn.
           split; [reflexivity|]. split; [reflexivity|].
           split; [reflexivity|]. split; [reflexivity|]. split; [eauto|].
           destruct (Hq bp) as [H|[H _]]; [left|right; exact H].
           rewrite H, lookup_insert_eq. reflexivity.
    + rewrite bool_decide_eq_false_2 by (intros [? ?]; discriminate).
      cbn [negb]. rewrite bind_apply. unfold print, ret.
      do 2 eexists. split; [reflexivity|]. cbn [fs].
      split; [rewrite Hfs0; exact Efs|]. split; [discriminate|].
      split; [auto|]. discriminate.
Qed.

(** The backup step never raises unless the backup directory cannot be
    created, never returns a bare path, and never touches the snapshot it
    backs up (a snapshot outside the backup directory), whatever fails.
    Without a snapshot it returns [None] and changes no file.  A backup
    object names the file [PROJECT_INDEX_<stamp>.json] of the backup
    directory and carries an entry not marked as succeeded or failed; the
    file it names holds what the snapshot holds, time stamp included, unless
    rotation has deleted it again. *)
Theorem create_backup_leaves_the_snapshot index_path max_backups w :
  Py.startswith (backup_dir_name +:+ "/") index_path = false ->
  (exists f, fault (OpMkdir backup_dir_name) = Some f /\
     create_backup fault size_of stamp now_iso cwd index_path max_backups w
     = (Raise (mkExn OSError (failure_msg f)), w)) \/
  (fault (OpMkdir backup_dir_name) = None /\
   exists backup w',
     create_backup fault size_of stamp now_iso cwd index_path max_backups w
     = (Ok backup, w') /\
     fs w' !! index_path = fs w !! index_path /\
     (forall p, backup <> BPath p) /\
     (fs w !! index_path = None -> backup = BNone /\ fs w' = fs w) /\
     (forall b, backup = BInfo b ->
        path b = backup_dir_name +:+ "/" +:+ ("PROJECT_INDEX_" +:+ stamp +:+ ".json") /\
        _backup_dir b = backup_dir_name /\
        backup_filename (_backup_info b) = "PROJECT_INDEX_" +:+ stamp +:+ ".json" /\
        operation_success (_backup_info b) = None /\
        is_Some (fs w !! index_path) /\
        (fs w' !! path b = fs w !! index_path \/ fs w' !! path b = None))).
Proof. apply create_backup_cases. Qed.






End WithEnvironment.

Lemma rollback_with_path_witness :
  exists w',
    safe_save_index disk_full (snapshot 3 0 0) output_path
                    (BPath backup_file)
                    (mkWorld (<[ backup_file := mkFileNode (CIndex (snapshot 2 0 0)) 0 ]>
                                (fs indexed_once)) 1 [])
    = (Ok false, w') /\
    (disk_full (OpCopy backup_file output_path) = None ->
     fs w' !! output_path = Some (mkFileNode (CIndex (snapshot 2 0 0)) 0) /\
     last (stdout w') = Some MsgRestored) /\
    (forall f, disk_full (OpCopy backup_file output_path) = Some f ->
     last (stdout w')
     = Some (MsgRollbackFailed (mkExn OSError (failure_msg f)))).
Proof.
  apply (rollback_with_path disk_full (snapshot 3 0 0) output_path
           backup_file (mkFileNode (CIndex (snapshot 2 0 0)) 0)).
  - left. vm_compute. eauto.
  - vm_compute. discriminate.
  - vm_compute. discriminate.
  - reflexivity.
Defined.

Lemma save_replaces_the_snapshot_witness :
  exists w',
    safe_save_index no_fault (snapshot 3 0 0) output_path BNone indexed_once
    = (Ok true, w') /\
    fs w' !! output_path = Some (mkFileNode (CIndex (snapshot 3 0 0)) 1) /\
    fs w' !! "PROJECT_INDEX.json.tmp" = None.
Proof.
  destruct (save_replaces_the_snapshot no_fault (snapshot 3 0 0) output_path
              BNone indexed_once) as (w' & H1 & H2 & H3 & _);
    [reflexivity | reflexivity | vm_compute; discriminate |].
  exists w'. auto.
Defined.

Lemma save_never_half_writes_witness :
  (fst (safe_save_index disk_full (snapshot 3 0 0) output_path
          (BInfo backup_info_object) indexed_once) = Ok true /\
   fs (snd (safe_save_index disk_full (snapshot 3 0 0) output_path
              (BInfo backup_info_object) indexed_once)) !! output_path
   = Some (mkFileNode (CIndex (snapshot 3 0 0)) (clock indexed_once))) \/
  (fst (safe_save_index disk_full (snapshot 3 0 0) output_path
          (BInfo backup_info_object) indexed_once) <> Ok true /\
   fs (snd (safe_save_index disk_full (snapshot 3 0 0) output_path
              (BInfo backup_info_object) indexed_once)) !! output_path
   = fs indexed_once !! output_path).
Proof.
  apply (save_never_half_writes disk_full (snapshot 3 0 0) output_path
           (BInfo backup_info_object) indexed_once).
  - vm_compute. discriminate.
  - discriminate.
  - apply surjective_pairing.
Defined.

Lemma create_backup_leaves_the_snapshot_witness :
  (exists f, no_fault (OpMkdir backup_dir_name) = Some f /\
     create_backup no_fault byte_size "20250102_000000" "2025-01-02T00:00:00"
                   "/project" output_path 10 indexed_once
     = (Raise (mkExn OSError (failure_msg f)), indexed_once)) \/
  (no_fault (OpMkdir backup_dir_name) = None /\
   exists backup w',
     create_backup no_fault byte_size "20250102_000000" "2025-01-02T00:00:00"
                   "/project" output_path 10 indexed_once
     = (Ok backup, w') /\
     fs w' !! output_path = fs indexed_once !! output_path /\
     (forall p, backup <> BPath p) /\
     (fs indexed_once !! output_path = None ->
      backup = BNone /\ fs w' = fs indexed_once) /\
     (forall b, backup = BInfo b ->
        path b = backup_dir_name +:+ "/" +:+
                 ("PROJECT_INDEX_" +:+ "20250102_000000" +:+ ".json") /\
        _backup_dir b = backup_dir_name /\
        backup_filename (_backup_info b)
        = "PROJECT_INDEX_" +:+ "20250102_000000" +:+ ".json" /\
        operation_success (_backup_info b) = None /\
        is_Some (fs indexed_once !! output_path) /\
        (fs w' !! path b = fs indexed_once !! output_path \/
         fs w' !! path b = None))).
Proof.
  apply (create_backup_leaves_the_snapshot no_fault byte_size
           "20250102_000000" "2025-01-02T00:00:00" "/project"
           output_path 10 indexed_once).
  reflexivity.
Defined.


End PipelineMore.

(** ** The command line *)

Module CliMore.
Import Cli.

Section WithInt.
Variable py_int : string -> option Z.



Lemma mem_cons (s a : string) rest :
  bool_decide (s ∈ a :: rest) = String.eqb a s || bool_decide (s ∈ rest).
Proof.
  destruct (String.eqb_spec a s) as [->|Hne]; simpl.
  - apply bool_decide_eq_true_2, elem_of_cons. now left.
  - apply bool_decide_ext. rewrite elem_of_cons.
    split; [intros [?|?]; [congruence|auto]|auto].
Qed.

Lemma scan_plain : forall args o,
  ~ In "--max-backups" args ->
  scan py_int args o
  = if bool_decide ("--version" ∈ args) then ([NoticeVersion], None)
    else ([], Some (mkOptions (max_backups o)
                      (show_log o || bool_decide ("--show-backup-log" ∈ args))
                      (cleanup_only o
                       || bool_decide ("--cleanup-backups" ∈ args)))).
Proof.
  induction args as [|a rest IH]; intros o Hno.
  - cbn [scan]. rewrite !(bool_decide_eq_false_2 (_ ∈ [])) by (apply not_elem_of_nil).
    rewrite !orb_false_r. now destruct o.
  - assert (Ha : a <> "--max-backups") by (intros ->; apply Hno; now left).
    assert (Hrest : ~ In "--max-backups" rest)
      by (intros H; apply Hno; now right).
    cbn [scan]. apply String.eqb_neq in Ha. rewrite Ha.
    rewrite !mem_cons.
    destruct (String.eqb_spec a "--show-backup-log") as [->|H1].
    { rewrite IH by exact Hrest. cbn.
      destruct (bool_decide ("--version" ∈ rest)); auto.
      now rewrite orb_true_r. }
    destruct (String.eqb_spec a "--cleanup-backups") as [->|H2].
    { rewrite IH by exact Hrest. cbn.
      destruct (bool_decide ("--version" ∈ rest)); auto.
      now rewrite orb_true_r. }
    destruct (String.eqb_spec a "--version") as [->|H3]; [reflexivity|].
    rewrite IH by exact Hrest. reflexivity.
Qed.

(** On a command line without [--max-backups] the order and the repetition
    of the arguments do not matter and unknown arguments are ignored:
    [--version] anywhere prints the version and returns before anything
    else is done; otherwise the two switches are set exactly when their
    flag occurs, the number of backups is ten and nothing is printed. *)
Theorem flags_in_any_order argv :
  ~ In "--max-backups" (tl argv) ->
  parse_args py_int argv
  = if bool_decide ("--version" ∈ tl argv) then ([NoticeVersion], None)
    else ([], Some (mkOptions 10
                      (bool_decide ("--show-backup-log" ∈ tl argv))
                      (bool_decide ("--cleanup-backups" ∈ tl argv)))).
Proof. intros H. unfold parse_args. now rewrite scan_plain. Qed.

End WithInt.


Lemma flags_in_any_order_witness :
  parse_args decimal ["project_index.py"; "-v"; "--cleanup-backups";
                      "--show-backup-log"; "--cleanup-backups"]
  = if bool_decide ("--version" ∈ tl ["project_index.py"; "-v";
                                       "--cleanup-backups";
                                       "--show-backup-log";
                                       "--cleanup-backups"])
    then ([NoticeVersion], None)
    else ([], Some (mkOptions 10
                      (bool_decide ("--show-backup-log" ∈
                         tl ["project_index.py"; "-v"; "--cleanup-backups";
                             "--show-backup-log"; "--cleanup-backups"]))
                      (bool_decide ("--cleanup-backups" ∈
                         tl ["project_index.py"; "-v"; "--cleanup-backups";
                             "--show-backup-log"; "--cleanup-backups"])))).
Proof.
  apply (flags_in_any_order decimal).
  vm_compute. intuition discriminate.
Defined.

End CliMore.
